(** * os2mo-init: the MO client helpers ([os2mo_init/mo.py]) and the class
    reconciler ([os2mo_init/classes.py]).

    Python values are modelled as follows:
    - a [uuid.UUID] is its 128-bit integer [UUID.int], as [N]; the conversion
      [UUID(s)] from a string is the parameter [parse_uuid], which either
      yields the UUID or fails (Python raises [ValueError]); [UUID_of] gives
      [UUID(x)] on any decoded value;
    - a decoded JSON / GraphQL result is the inductive [json];
    - a Python [dict] is an association list in insertion order: with string
      keys ([dict[str, ...]]) updated with [dict_set], with decoded values as
      keys updated with [pydict_set], keys being compared as Python compares
      them (an existing key keeps its position, a new key is appended);
    - a computation that may raise is an [Outcome]: [Return] or [Raise]. *)

From Stdlib Require Import String List Bool NArith ZArith Arith Lia Permutation.
Import ListNotations.
Open Scope string_scope.
Open Scope list_scope.
#[local] Set Warnings "-register-all".

Definition UUID := N.

(** ** Exceptions and the outcome of a Python computation *)

(** An entry of the error list of a GraphQL [TransportQueryError]. *)
Record GraphQLError := mkGraphQLError { message : string }.

Inductive Exc :=
| TransportQueryError (errors : option (list GraphQLError))
    (** [e.errors] is [Optional[list]] in gql *)
| IndexError
| KeyError (key : string)
| TypeError
| ValueError
| AttributeError
| OtherError (name : string).

Inductive Outcome (A : Type) :=
| Return (a : A)
| Raise (e : Exc).
Arguments Return {A} a.
Arguments Raise {A} e.

Definition bind {A B} (m : Outcome A) (f : A -> Outcome B) : Outcome B :=
  match m with
  | Return a => f a
  | Raise e => Raise e
  end.

Notation "'let*' x := m 'in' k" := (bind m (fun x => k))
  (at level 200, x name, m at level 100, k at level 200).

(** [[f(x) for x in xs]] where [f] may raise: the first exception aborts. *)
Fixpoint map_py {A B} (f : A -> Outcome B) (xs : list A) : Outcome (list B) :=
  match xs with
  | [] => Return []
  | x :: xs' =>
      let* y := f x in
      let* ys := map_py f xs' in
      Return (y :: ys)
  end.

(** [d[k] = v] on a dict: an existing key keeps its position. *)
Fixpoint dict_set {V} (k : string) (v : V) (d : list (string * V))
  : list (string * V) :=
  match d with
  | [] => [(k, v)]
  | (k', v') :: d' =>
      if String.eqb k k' then (k', v) :: d' else (k', v') :: dict_set k v d'
  end.

(** A dict comprehension [{key(x): value(x) for x in xs}]: an exception
    raised while building an entry aborts the comprehension. *)
Fixpoint dict_comp_from {A V} (f : A -> Outcome (string * V)) (xs : list A)
    (acc : list (string * V)) : Outcome (list (string * V)) :=
  match xs with
  | [] => Return acc
  | x :: xs' =>
      let* kv := f x in
      dict_comp_from f xs' (dict_set (fst kv) (snd kv) acc)
  end.

Definition dict_comp {A V} (f : A -> Outcome (string * V)) (xs : list A) :=
  dict_comp_from f xs [].

(** ** Decoded JSON values *)

Inductive json :=
| JNull
| JBool (b : bool)
| JNum (z : Z)
| JStr (s : string)
| JArr (xs : list json)
| JObj (kvs : list (string * json)).

Fixpoint assoc {V} (k : string) (kvs : list (string * V)) : option V :=
  match kvs with
  | [] => None
  | (k', v) :: kvs' => if String.eqb k k' then Some v else assoc k kvs'
  end.

(** [value[key]] on a decoded JSON value. *)
Definition subscript (v : json) (key : string) : Outcome json :=
  match v with
  | JObj kvs =>
      match assoc key kvs with
      | Some x => Return x
      | None => Raise (KeyError key)
      end
  | _ => Raise TypeError
  end.

(** ** Dicts with keys taken from decoded JSON

    A dict comprehension whose keys are decoded JSON values accepts any
    hashable key: [None], a boolean, an integer or a string.  [False] and
    [True] are equal to, and hash like, [0] and [1].  A list or a dict is
    unhashable.  A decoded JSON number is an integer here. *)
Inductive PyKey := KNone | KInt (z : Z) | KStr (s : string).

Definition PyKey_eqb (a b : PyKey) : bool :=
  match a, b with
  | KNone, KNone => true
  | KInt x, KInt y => Z.eqb x y
  | KStr x, KStr y => String.eqb x y
  | _, _ => false
  end.

(** [hash(k)] succeeds, and [k] compares equal to exactly the keys with the
    same [PyKey]; [None] is the [TypeError: unhashable type] case. *)
Definition hash_key (x : json) : option PyKey :=
  match x with
  | JNull => Some KNone
  | JBool b => Some (KInt (if b then 1 else 0)%Z)
  | JNum z => Some (KInt z)
  | JStr s => Some (KStr s)
  | JArr _ | JObj _ => None
  end.

(** [a == b] for two hashable dict keys. *)
Definition py_key_eqb (a b : json) : bool :=
  match hash_key a, hash_key b with
  | Some x, Some y => PyKey_eqb x y
  | _, _ => false
  end.

(** [d[k] = v] for a hashable [k]: an equal key already in [d] keeps its
    position and its key object; otherwise [(k, v)] is appended. *)
Fixpoint pydict_set {V} (k : json) (v : V) (d : list (json * V)) : list (json * V) :=
  match d with
  | [] => [(k, v)]
  | (k', v') :: d' =>
      if py_key_eqb k k' then (k', v) :: d' else (k', v') :: pydict_set k v d'
  end.

(** [{key(x): value(x) for x in xs}] with JSON keys: [f] evaluates the key
    and then the value of an entry; inserting it hashes the key, which raises
    [TypeError] for an unhashable key. *)
Fixpoint pydict_comp_from {A V} (f : A -> Outcome (json * V)) (xs : list A)
    (acc : list (json * V)) : Outcome (list (json * V)) :=
  match xs with
  | [] => Return acc
  | x :: xs' =>
      let* kv := f x in
      match hash_key (fst kv) with
      | None => Raise TypeError
      | Some _ => pydict_comp_from f xs' (pydict_set (fst kv) (snd kv) acc)
      end
  end.

Definition pydict_comp {A V} (f : A -> Outcome (json * V)) (xs : list A) :=
  pydict_comp_from f xs [].

(** The entry of [d] whose key equals [k], if any: [d[k]] is its value. *)
Fixpoint py_find {V} (k : json) (d : list (json * V)) : option (json * V) :=
  match d with
  | [] => None
  | (k', v) :: d' => if py_key_eqb k k' then Some (k', v) else py_find k d'
  end.

(** * [os2mo_init/mo.py] *)
Module MO.

Section Client.

(** [uuid.UUID(s)] for a string [s]; [None] is the [ValueError] case. *)
Variable parse_uuid : string -> option UUID.

(** [UUID(x)] for a decoded JSON value [x]: a string is parsed; [UUID(None)]
    raises [TypeError] (no argument given); any other value raises
    [AttributeError] at [x.replace(...)]. *)
Definition UUID_of (x : json) : Outcome UUID :=
  match x with
  | JStr s =>
      match parse_uuid s with
      | Some u => Return u
      | None => Raise ValueError
      end
  | JNull => Raise TypeError
  | _ => Raise AttributeError
  end.

(** ** [get_root_org] (mo.py, lines 14-38)

    [execute] is what [await graphql_session.execute(query)] produced: the
    decoded result, or the exception it raised. *)

Definition E_ORG_UNCONFIGURED := "ErrorCodes.E_ORG_UNCONFIGURED".

Definition get_root_org (execute : Outcome json) : Outcome (option UUID) :=
  match execute with
  | Return result =>
      (* return UUID(result["org"]["uuid"]) *)
      let* org := subscript result "org" in
      let* uuid := subscript org "uuid" in
      let* u := UUID_of uuid in
      Return (Some u)
  | Raise (TransportQueryError errors as e) =>
      (* if e.errors[0].message == "ErrorCodes.E_ORG_UNCONFIGURED" *)
      match errors with
      | None => Raise TypeError
      | Some [] => Raise IndexError
      | Some (e0 :: _) =>
          if String.eqb (message e0) E_ORG_UNCONFIGURED
          then Return None
          else Raise e
      end
  | Raise e => Raise e
  end.

(** ** [get_classes] (mo.py, lines 58-98) *)

(** Iterating a decoded JSON value with [for]: a list yields its items, a
    dict its keys, a string its characters; other values raise [TypeError]. *)
Definition iter_json (v : json) : Outcome (list json) :=
  match v with
  | JArr xs => Return xs
  | JObj kvs => Return (map (fun kv => JStr (fst kv)) kvs)
  | JStr s => Return (map (fun c => JStr (String c EmptyString)) (list_ascii_of_string s))
  | _ => Raise TypeError
  end.

(** [client.get(f"/service/f/{facet_uuid}/").json()]: the decoded response
    body for a facet, or the exception raised by the request. *)
Variable get_facet_json : UUID -> Outcome json.

Definition get_classes_for_facet (facet_uuid : UUID) : Outcome json :=
  let* r := get_facet_json facet_uuid in
  let* data := subscript r "data" in
  subscript data "items".

(** [{facet_class["user_key"]: UUID(facet_class["uuid"])
      for facet_class in facet_classes}]; the key expression is evaluated
    before the value expression (Python 3.8 and later). *)
Definition class_dict (facet_classes : json) : Outcome (list (json * UUID)) :=
  let* items := iter_json facet_classes in
  pydict_comp (fun facet_class =>
                 let* k := subscript facet_class "user_key" in
                 let* v := subscript facet_class "uuid" in
                 let* u := UUID_of v in
                 Return (k, u)) items.

(** The entry [x["user_key"]: UUID(x["uuid"])] built for each item [x] by
    the comprehensions of [class_dict] and [get_facets], before it is
    inserted. *)
Definition key_uuid_entry (x : json) : Outcome (json * UUID) :=
  let* k := subscript x "user_key" in
  let* v := subscript x "uuid" in
  let* u := UUID_of v in
  Return (k, u).

(** ** [get_facets] (mo.py, lines 41-55) *)

(** [client.get(f"/service/o/{organisation_uuid}/f/").json()]: the decoded
    response body listing the facets of an organisation, or the exception
    raised by the request. *)
Variable get_org_facets_json : UUID -> Outcome json.

Definition get_facets (organisation_uuid : UUID) : Outcome (list (json * UUID)) :=
  let* facets := get_org_facets_json organisation_uuid in
  let* items := iter_json facets in
  (* {f["user_key"]: UUID(f["uuid"]) for f in facets} *)
  pydict_comp (fun f =>
                 let* k := subscript f "user_key" in
                 let* v := subscript f "uuid" in
                 let* u := UUID_of v in
                 Return (k, u)) items.

(** [facets] is the [dict[str, UUID]] of the signature.  [asyncio.gather]
    of the per-facet requests, in the order of [facets.values()], then the
    comprehension over [zip(facets.keys(), ...)].  When several requests
    fail, [gather] raises the failure that occurs first in time; [map_py]
    raises the first in the order of [facets], so the properties below
    assume at most one failing request. *)
Definition get_classes (facets : list (string * UUID))
  : Outcome (list (string * list (json * UUID))) :=
  let* gathered := map_py get_classes_for_facet (map snd facets) in
  dict_comp (fun '(facet_user_key, facet_classes) =>
               let* m := class_dict facet_classes in
               Return (facet_user_key, m))
            (combine (map fst facets) gathered).

End Client.

End MO.

Import MO.

(** * [os2mo_init/classes.py]

    The module [os2mo_init.classes] ([Class], [Facet], [get_classes],
    [ensure_classes]) is imported by [tests/test_classes.py] but its source is
    not part of the sources at hand; its definitions below are modelled from
    the spec (sections 3, 4 and 6) and from the calls the test asserts. *)
Module Classes.

(** Modelled from the spec: the [Class] value type of [os2mo_init.classes]
    (identifier, natural key, display title, scope tag). *)
Record Class := mkClass {
  class_uuid : UUID;
  class_user_key : string;
  class_name : string;
  class_scope : string }.

(** Modelled from the spec: the [Facet] value type of [os2mo_init.classes]
    (identifier, natural key, ordered list of owned classes). *)
Record Facet := mkFacet {
  facet_uuid : UUID;
  facet_user_key : string;
  facet_classes : list Class }.

(** [ConfigClass] of [os2mo_init.config]: the desired title and scope. *)
Record ConfigClass := mkConfigClass { title : string; scope : string }.

(** A [ConfigFacet] maps class user keys to [ConfigClass]; the desired
    configuration maps facet user keys to [ConfigFacet]s, both in their
    iteration order. *)
Definition ConfigFacet := list (string * ConfigClass).
Definition Config := list (string * ConfigFacet).

(** ** The Fetcher *)

Section Fetcher.

Variable parse_uuid : string -> option UUID.

Definition str_of (x : json) : Outcome string :=
  match x with
  | JStr s => Return s
  | _ => Raise TypeError
  end.

Definition list_of (x : json) : Outcome (list json) :=
  match x with
  | JArr xs => Return xs
  | _ => Raise TypeError
  end.

(** Modelled from the spec: building a [Class] from one entry of a facet's
    [classes] list of the GraphQL result. *)
Definition parse_class (c : json) : Outcome Class :=
  let* u := subscript c "uuid" in
  let* u := UUID_of parse_uuid u in
  let* k := subscript c "user_key" in
  let* k := str_of k in
  let* n := subscript c "name" in
  let* n := str_of n in
  let* s := subscript c "scope" in
  let* s := str_of s in
  Return (mkClass u k n s).

(** Modelled from the spec: building a [Facet] from one entry of
    [facets.objects], from its [current] projection. *)
Definition parse_facet (o : json) : Outcome Facet :=
  let* cur := subscript o "current" in
  let* u := subscript cur "uuid" in
  let* u := UUID_of parse_uuid u in
  let* k := subscript cur "user_key" in
  let* k := str_of k in
  let* cs := subscript cur "classes" in
  let* cs := list_of cs in
  let* cs := map_py parse_class cs in
  Return (mkFacet u k cs).

(** Modelled from the spec: [get_classes(graphql_session)] of
    [os2mo_init.classes]; [execute] is the decoded result of the facets query
    (or the exception the session raised). *)
Definition get_classes (execute : Outcome json) : Outcome (list Facet) :=
  let* result := execute in
  let* fs := subscript result "facets" in
  let* objs := subscript fs "objects" in
  let* objs := list_of objs in
  map_py parse_facet objs.

End Fetcher.

(** The GraphQL result that lists the facets [fs], with [str_uuid] printing
    a UUID; the shape of the result in [test_get_classes]. *)
Definition encode_class (str_uuid : UUID -> string) (c : Class) : json :=
  JObj [("uuid", JStr (str_uuid (class_uuid c)));
        ("user_key", JStr (class_user_key c));
        ("name", JStr (class_name c));
        ("scope", JStr (class_scope c))].

Definition encode_facet (str_uuid : UUID -> string) (f : Facet) : json :=
  JObj [("current",
         JObj [("uuid", JStr (str_uuid (facet_uuid f)));
               ("user_key", JStr (facet_user_key f));
               ("classes", JArr (map (encode_class str_uuid) (facet_classes f)))])].

Definition encode_facets (str_uuid : UUID -> string) (fs : list Facet) : json :=
  JObj [("facets", JObj [("objects", JArr (map (encode_facet str_uuid) fs))])].

(** ** The Reconciler *)

(** The mutations [ensure_classes] sends through [graphql_session.execute]:
    the update payload carries the existing class UUID, the create payload
    has none (test_classes.py, lines 142-163). *)
Inductive Mutation :=
| ClassUpdate (facet_uuid uuid : UUID) (user_key name scope : string)
| ClassCreate (facet_uuid : UUID) (user_key name scope : string).

Definition mutation_facet (m : Mutation) : UUID :=
  match m with
  | ClassUpdate fu _ _ _ _ | ClassCreate fu _ _ _ => fu
  end.

Definition mutation_user_key (m : Mutation) : string :=
  match m with
  | ClassUpdate _ _ k _ _ | ClassCreate _ k _ _ => k
  end.

Definition is_update (m : Mutation) : bool :=
  match m with
  | ClassUpdate _ _ _ _ _ => true
  | ClassCreate _ _ _ _ => false
  end.

(** The configuration error raised for a facet key with no remote facet. *)
Inductive ConfigError := MissingFacet (facet_user_key : string).

(** Modelled from the spec: the remote facet and class indexes by natural
    key (section 4.2, step 1). *)
Definition find_facet (fs : list Facet) (k : string) : option Facet :=
  find (fun f => String.eqb (facet_user_key f) k) fs.

Definition find_class (cs : list Class) (k : string) : option Class :=
  find (fun c => String.eqb (class_user_key c) k) cs.

(** Modelled from the spec: the mutation for one desired class of the
    remote facet [f] (section 4.2, step 2b). *)
Definition class_mutation (f : Facet) (ck : string) (cc : ConfigClass) : Mutation :=
  match find_class (facet_classes f) ck with
  | Some c => ClassUpdate (facet_uuid f) (class_uuid c) ck (title cc) (scope cc)
  | None => ClassCreate (facet_uuid f) ck (title cc) (scope cc)
  end.

(** Modelled from the spec: the mutations issued for the desired
    configuration, in its iteration order, and the configuration error that
    aborts the run at the first facet key with no remote facet (section 4.2,
    step 2a). *)
Fixpoint plan (fs : list Facet) (config : Config) : list Mutation * option ConfigError :=
  match config with
  | [] => ([], None)
  | (fk, cf) :: config' =>
      match find_facet fs fk with
      | None => ([], Some (MissingFacet fk))
      | Some f =>
          let '(ms, err) := plan fs config' in
          (map (fun '(ck, cc) => class_mutation f ck cc) cf ++ ms, err)
      end
  end.

(** Modelled from the spec: the remote registry as seen by the reconciler,
    its facets in listing order, and the next identifier it assigns to a
    created class (section 6: the remote assigns identifiers on create). *)
Record Remote := mkRemote {
  remote_facets : list Facet;
  remote_next : UUID }.

Definition update_class (u : UUID) (k n s : string) (c : Class) : Class :=
  if N.eqb (class_uuid c) u then mkClass u k n s else c.

Definition append_class (fu : UUID) (c : Class) (f : Facet) : Facet :=
  if N.eqb (facet_uuid f) fu
  then mkFacet (facet_uuid f) (facet_user_key f) (facet_classes f ++ [c])
  else f.

(** Modelled from the spec: the effect of a mutation on the remote registry
    (section 6): an update rewrites the class with the given identifier in
    place (its facet is implicit via the class); a create appends a class
    with a fresh identifier to the facet with the given identifier. *)
Definition apply_mutation (r : Remote) (m : Mutation) : Remote :=
  match m with
  | ClassUpdate _ u k n s =>
      mkRemote
        (map (fun f => mkFacet (facet_uuid f) (facet_user_key f)
                         (map (update_class u k n s) (facet_classes f)))
             (remote_facets r))
        (remote_next r)
  | ClassCreate fu k n s =>
      mkRemote
        (map (append_class fu (mkClass (remote_next r) k n s)) (remote_facets r))
        (N.succ (remote_next r))
  end.

(** Modelled from the spec: the answer of the transport to one mutation call
    (sections 4.2 and 7): the call succeeds, or it fails with an exception,
    the write having taken effect remotely ([applied]) or not (section 5: a
    failure mid-sequence leaves the remote state partially converged). *)
Inductive Reply := Ok | Failed (e : Exc) (applied : bool).

(** Modelled from the spec: how the transport answers during one run: the
    fetch of the remote facets (section 4.1) raises [e] when [fetch_reply]
    is [Some e], and the [i]-th mutation call of the run (counted from 0)
    gets [call_reply i]. *)
Record Transport := mkTransport {
  fetch_reply : option Exc;
  call_reply : nat -> Reply }.

(** A run ends with the configuration error of section 4.2, step 2a, or
    with the transport failure that aborted it (section 7), if any. *)
Inductive RunError := ConfigFailure (c : ConfigError) | TransportFailure (e : Exc).

(** Modelled from the spec: issuing the mutations [ms] one after the other
    (section 4.2, step 3), the first of them as call number [i]; the first
    failed call aborts the run, with no retry (section 4.2, error
    conditions).  The result is the remote state, the calls issued (the
    failed one included) and the transport failure, if any. *)
Fixpoint execute (reply : nat -> Reply) (i : nat) (ms : list Mutation) (r : Remote)
  : Remote * list Mutation * option Exc :=
  match ms with
  | [] => (r, [], None)
  | m :: ms' =>
      match reply i with
      | Ok =>
          let '(r', sent, err) := execute reply (S i) ms' (apply_mutation r m) in
          (r', m :: sent, err)
      | Failed e applied => ((if applied then apply_mutation r m else r), [m], Some e)
      end
  end.

(** Modelled from the spec: [ensure_classes(graphql_session, config)].
    The remote facets are fetched once (a failed fetch propagates); the
    mutations are then issued one after the other, in the order [plan]
    lists them, up to the first failed call.  The result is the final
    remote state, the mutation calls issued, and the error that ended the
    run, if any: a transport failure, or else the configuration error met
    after the mutations of the facets before it. *)
Definition ensure_classes (t : Transport) (r : Remote) (config : Config)
  : Remote * list Mutation * option RunError :=
  match fetch_reply t with
  | Some e => (r, [], Some (TransportFailure e))
  | None =>
      let '(ms, cerr) := plan (remote_facets r) config in
      let '(r', sent, terr) := execute (call_reply t) 0 ms r in
      (r', sent,
       match terr with
       | Some e => Some (TransportFailure e)
       | None => option_map ConfigFailure cerr
       end)
  end.

(** ** Auxiliary notions used to state the properties *)

(** The transport fails nowhere during the run. *)
Definition reliable (t : Transport) : Prop :=
  fetch_reply t = None /\ forall i, call_reply t i = Ok.

(** The run ended with the configuration error for a facet key of [config]
    that has no facet in [fs], or with a transport failure. *)
Definition missing_facet_failure (fs : list Facet) (config : Config)
    (err : option RunError) : Prop :=
  (exists fk0, In fk0 (map fst config) /\ find_facet fs fk0 = None /\
     err = Some (ConfigFailure (MissingFacet fk0))) \/
  (exists e, err = Some (TransportFailure e)).

(** The (facet key, class key, desired class) entries of a configuration,
    in iteration order, and their key pairs. *)
Definition config_entries (config : Config) : list (string * string * ConfigClass) :=
  flat_map (fun '(fk, cf) => map (fun '(ck, cc) => (fk, ck, cc)) cf) config.

Definition config_pairs (config : Config) : list (string * string) :=
  map (fun '(fk, ck, _) => (fk, ck)) (config_entries config).

(** All class identifiers of a remote facet list. *)
Definition all_class_uuids (fs : list Facet) : list UUID :=
  flat_map (fun f => map class_uuid (facet_classes f)) fs.

(** Identifiers are unique and the next identifier is fresh. *)
Definition remote_wf (r : Remote) : Prop :=
  NoDup (map facet_uuid (remote_facets r)) /\
  NoDup (all_class_uuids (remote_facets r)) /\
  Forall (fun u => (u < remote_next r)%N) (all_class_uuids (remote_facets r)).

(** Every facet key of the configuration has a remote facet. *)
Definition facets_present (fs : list Facet) (config : Config) : Prop :=
  Forall (fun '(fk, _) => find_facet fs fk <> None) config.

(** The class identifier a mutation targets, if any. *)
Definition mutation_uuid (m : Mutation) : option UUID :=
  match m with
  | ClassUpdate _ u _ _ _ => Some u
  | ClassCreate _ _ _ _ => None
  end.

(** The mutation [plan] issues for one configuration entry whose facet is
    present remotely. *)
Definition entry_mutation (fs : list Facet) (e : string * string * ConfigClass)
  : list Mutation :=
  let '(fk, ck, cc) := e in
  match find_facet fs fk with
  | Some f => [class_mutation f ck cc]
  | None => []
  end.

(** The desired class of entry [e] holds remotely: the class found by its
    natural key under the facet found by its natural key has the desired
    title and scope. *)
Definition entry_holds (fs : list Facet) (e : string * string * ConfigClass) : Prop :=
  let '(fk, ck, cc) := e in
  exists f c, find_facet fs fk = Some f /\ find_class (facet_classes f) ck = Some c /\
    class_name c = title cc /\ class_scope c = scope cc.

Definition entry_pair (e : string * string * ConfigClass) : string * string :=
  let '(fk, ck, _) := e in (fk, ck).

(** [fs'] lists the facets of [fs], each with its classes, in another
    order. *)
Definition reordered (fs fs' : list Facet) : Prop :=
  exists fs'', Permutation fs fs'' /\
    Forall2 (fun f f' => facet_uuid f = facet_uuid f' /\
                         facet_user_key f = facet_user_key f' /\
                         Permutation (facet_classes f) (facet_classes f')) fs'' fs'.

End Classes.

Import Classes.

(** * Tests *)

Definition parse_test (s : string) : option UUID :=
  if String.eqb s "182d" then Some 1%N
  else if String.eqb s "8acc" then Some 2%N
  else if String.eqb s "2cc2" then Some 3%N
  else None.

Definition test_remote : Remote :=
  mkRemote [mkFacet 1%N "engagement_type" [mkClass 2%N "Ansat" "Ansat" "TEXT"];
            mkFacet 3%N "visibility" []] 10%N.

Definition test_config : Config :=
  [("engagement_type", [("Ansat", mkConfigClass "Updated Title" "Updated Scope")]);
   ("visibility", [("Intern", mkConfigClass "New Internal Title" "NEW INTERNAL SCOPE")])].

(** A transport that never fails, and one whose every mutation call fails
    with [e] before the write takes effect. *)
Definition reliable_transport : Transport := mkTransport None (fun _ => Ok).

Definition failing_transport (e : Exc) : Transport :=
  mkTransport None (fun _ => Failed e false).

Example test_ensure_classes_calls :
  snd (fst (ensure_classes reliable_transport test_remote test_config)) =
  [ClassUpdate 1%N 2%N "Ansat" "Updated Title" "Updated Scope";
   ClassCreate 3%N "Intern" "New Internal Title" "NEW INTERNAL SCOPE"].
Proof. reflexivity. Qed.

Example test_get_root_org_unconfigured :
  get_root_org parse_test
    (Raise (TransportQueryError (Some [mkGraphQLError E_ORG_UNCONFIGURED]))) = Return None.
Proof. reflexivity. Qed.

(** Facet listings as returned by [/service/o/{uuid}/f/]: one with a user
    key listed twice, one with distinct user keys, and one whose second
    entry has no ["uuid"]. *)
Definition facets_body_dup_test : json :=
  JArr [JObj [("uuid", JStr "182d"); ("user_key", JStr "engagement_type")];
        JObj [("uuid", JStr "2cc2"); ("user_key", JStr "visibility")];
        JObj [("uuid", JStr "8acc"); ("user_key", JStr "engagement_type")]].

Definition facets_body_test : json :=
  JArr [JObj [("uuid", JStr "182d"); ("user_key", JStr "engagement_type")];
        JObj [("uuid", JStr "2cc2"); ("user_key", JStr "visibility")]].

Definition facets_body_bad_test : json :=
  JArr [JObj [("uuid", JStr "182d"); ("user_key", JStr "engagement_type")];
        JObj [("user_key", JStr "visibility")];
        JNull].

Example test_get_facets_last_wins :
  get_facets parse_test (fun _ => Return facets_body_dup_test) 0%N
  = Return [(JStr "engagement_type", 2%N); (JStr "visibility", 3%N)].
Proof. reflexivity. Qed.

(** Non-string user keys: [True] and [1] are one key, which keeps the first
    key object and the last value; [5] is a key of its own; a list key is
    unhashable. *)
Example test_class_dict_key_objects :
  class_dict parse_test
    (JArr [JObj [("user_key", JBool true); ("uuid", JStr "182d")];
           JObj [("user_key", JNum 5); ("uuid", JStr "2cc2")];
           JObj [("user_key", JNum 1); ("uuid", JStr "8acc")]])
  = Return [(JBool true, 2%N); (JNum 5, 3%N)] /\
  class_dict parse_test (JArr [JObj [("user_key", JArr []); ("uuid", JNum 7)]])
  = Raise AttributeError /\
  class_dict parse_test (JArr [JObj [("user_key", JArr []); ("uuid", JStr "182d")]])
  = Raise TypeError.
Proof. repeat split; reflexivity. Qed.

(** A facet endpoint that fails for the facet [3] (HTTP error), and one whose
    class list for the facet [3] has an entry without a ["uuid"]. *)
Definition facet_json_fail_test (u : UUID) : Outcome json :=
  if N.eqb u 3 then Raise (OtherError "HTTPStatusError")
  else Return (JObj [("data", JObj [("items", JArr [])])]).

Definition facet_json_bad_class_test (u : UUID) : Outcome json :=
  Return (JObj [("data", JObj [("items",
    if N.eqb u 3 then JArr [JObj [("user_key", JStr "Ekstern")]] else JArr [])])]).

(** * Properties of [get_root_org] *)

(** The exception the claim calls "any other failure": anything but a
    [TransportQueryError]. *)
Definition is_transport_error (e : Exc) : bool :=
  match e with
  | TransportQueryError _ => true
  | _ => false
  end.

(** C5 (corrected), counterexample: a query failing with a
    [TransportQueryError] that carries the code [E_ORG_UNCONFIGURED] in its
    second error entry propagates instead of returning [None], and one that
    carries another code after a first [E_ORG_UNCONFIGURED] entry returns
    [None] instead of propagating. *)
Lemma get_root_org_not_by_code :
  get_root_org parse_test
    (Raise (TransportQueryError
              (Some [mkGraphQLError "ErrorCodes.E_UNAUTHORIZED";
                     mkGraphQLError E_ORG_UNCONFIGURED])))
  = Raise (TransportQueryError
             (Some [mkGraphQLError "ErrorCodes.E_UNAUTHORIZED";
                    mkGraphQLError E_ORG_UNCONFIGURED])) /\
  get_root_org parse_test
    (Raise (TransportQueryError
              (Some [mkGraphQLError E_ORG_UNCONFIGURED;
                     mkGraphQLError "ErrorCodes.E_UNAUTHORIZED"])))
  = Return None.
Proof. split; reflexivity. Qed.

(** C5 (corrected): [get_root_org] returns the parsed root organisation UUID
    when the query succeeds with a well-formed result; when the query fails
    with a [TransportQueryError] whose first error entry has the message
    [ErrorCodes.E_ORG_UNCONFIGURED] it returns [None]; when the first entry
    has any other message, the same exception is re-raised; any exception
    other than a [TransportQueryError] propagates unchanged. *)
Theorem get_root_org_spec (parse_uuid : string -> option UUID) :
  (forall result org s u,
      subscript result "org" = Return org ->
      subscript org "uuid" = Return (JStr s) ->
      parse_uuid s = Some u ->
      get_root_org parse_uuid (Return result) = Return (Some u)) /\
  (forall e0 rest,
      message e0 = E_ORG_UNCONFIGURED ->
      get_root_org parse_uuid (Raise (TransportQueryError (Some (e0 :: rest))))
      = Return None) /\
  (forall e0 rest,
      message e0 <> E_ORG_UNCONFIGURED ->
      get_root_org parse_uuid (Raise (TransportQueryError (Some (e0 :: rest))))
      = Raise (TransportQueryError (Some (e0 :: rest)))) /\
  (forall e,
      is_transport_error e = false ->
      get_root_org parse_uuid (Raise e) = Raise e).
Proof.
  repeat split.
  - intros result org s u Horg Huuid Hs.
    simpl. rewrite Horg. simpl. rewrite Huuid. simpl. rewrite Hs. reflexivity.
  - intros e0 rest He. simpl. rewrite He. reflexivity.
  - intros e0 rest He. simpl.
    apply String.eqb_neq in He. rewrite He. reflexivity.
  - intros [] He; simpl in He; try discriminate; reflexivity.
Qed.

Lemma get_root_org_spec_witness :
  get_root_org parse_test
    (Return (JObj [("org", JObj [("uuid", JStr "182d")])])) = Return (Some 1%N) /\
  get_root_org parse_test
    (Raise (TransportQueryError (Some [mkGraphQLError E_ORG_UNCONFIGURED]))) = Return None /\
  get_root_org parse_test
    (Raise (TransportQueryError (Some [mkGraphQLError "ErrorCodes.E_UNAUTHORIZED"])))
  = Raise (TransportQueryError (Some [mkGraphQLError "ErrorCodes.E_UNAUTHORIZED"])) /\
  get_root_org parse_test (Raise (OtherError "ConnectError"))
  = Raise (OtherError "ConnectError").
Proof.
  destruct (get_root_org_spec parse_test) as (H1 & H2 & H3 & H4).
  split; [| split; [| split]].
  - apply (H1 _ (JObj [("uuid", JStr "182d")]) "182d"); reflexivity.
  - apply H2; reflexivity.
  - apply H3. simpl. discriminate.
  - apply H4. reflexivity.
Defined.

(** C9: only the first entry of the error list decides: a
    [TransportQueryError] whose first entry is not [E_ORG_UNCONFIGURED]
    propagates even when a later entry is; an empty error list makes the
    handler itself raise [IndexError] instead of re-raising the error. *)
Theorem get_root_org_first_error_only (parse_uuid : string -> option UUID)
    (e0 : GraphQLError) (rest : list GraphQLError) :
  message e0 <> E_ORG_UNCONFIGURED ->
  get_root_org parse_uuid
    (Raise (TransportQueryError
              (Some (e0 :: rest ++ [mkGraphQLError E_ORG_UNCONFIGURED]))))
  = Raise (TransportQueryError
             (Some (e0 :: rest ++ [mkGraphQLError E_ORG_UNCONFIGURED]))) /\
  get_root_org parse_uuid (Raise (TransportQueryError (Some []))) = Raise IndexError.
Proof.
  intros He. split.
  - simpl. apply String.eqb_neq in He. rewrite He. reflexivity.
  - reflexivity.
Qed.

Lemma get_root_org_first_error_only_witness :
  message (mkGraphQLError "ErrorCodes.E_UNAUTHORIZED") <> E_ORG_UNCONFIGURED /\
  get_root_org parse_test
    (Raise (TransportQueryError
              (Some (mkGraphQLError "ErrorCodes.E_UNAUTHORIZED" :: []
                       ++ [mkGraphQLError E_ORG_UNCONFIGURED]))))
  = Raise (TransportQueryError
             (Some (mkGraphQLError "ErrorCodes.E_UNAUTHORIZED" :: []
                      ++ [mkGraphQLError E_ORG_UNCONFIGURED]))) /\
  get_root_org parse_test (Raise (TransportQueryError (Some []))) = Raise IndexError.
Proof.
  assert (He : message (mkGraphQLError "ErrorCodes.E_UNAUTHORIZED") <> E_ORG_UNCONFIGURED)
    by (simpl; discriminate).
  split; [exact He |].
  exact (get_root_org_first_error_only parse_test _ [] He).
Defined.

(** * Properties of [mo.get_classes] *)

Lemma map_py_forall2 {A B} (f : A -> Outcome B) xs ys :
  map_py f xs = Return ys -> Forall2 (fun x y => f x = Return y) xs ys.
Proof.
  revert ys. induction xs as [| x xs IH]; intros ys H; simpl in H.
  - injection H as <-. constructor.
  - destruct (f x) as [y |] eqn:Hx; simpl in H; [| discriminate].
    destruct (map_py f xs) as [ys' |] eqn:Hxs; simpl in H; [| discriminate].
    injection H as <-. constructor; auto.
Qed.

Lemma map_py_total {A B} (f : A -> Outcome B) xs :
  (forall x, In x xs -> exists y, f x = Return y) ->
  exists ys, map_py f xs = Return ys.
Proof.
  induction xs as [| x xs IH]; intros H; simpl.
  - eauto.
  - destruct (H x (or_introl eq_refl)) as [y ->]. simpl.
    destruct IH as [ys ->]; [intros; apply H; right; assumption |].
    simpl. eauto.
Qed.

Lemma dict_set_fresh {V} k (v : V) acc :
  ~ In k (map fst acc) -> dict_set k v acc = acc ++ [(k, v)].
Proof.
  induction acc as [| [k' v'] acc IH]; intros Hn; simpl in *; [reflexivity |].
  destruct (String.eqb_spec k k') as [-> | Hne]; [tauto |].
  rewrite IH; tauto.
Qed.

(** A comprehension whose entries have pairwise distinct keys, none already
    in the accumulator, appends its entries in order. *)
Lemma dict_comp_from_distinct {A V} (f : A -> Outcome (string * V)) xs acc d :
  dict_comp_from f xs acc = Return d ->
  exists kvs, Forall2 (fun x kv => f x = Return kv) xs kvs /\
    (NoDup (map fst acc ++ map fst kvs) -> d = acc ++ kvs).
Proof.
  revert acc. induction xs as [| x xs IH]; intros acc H; simpl in H.
  - injection H as <-. exists []. split; [constructor | intros _; rewrite app_nil_r; reflexivity].
  - destruct (f x) as [[k v] |] eqn:Hx; simpl in H; [| discriminate].
    destruct (IH _ H) as [kvs [Hkvs Hd]].
    exists ((k, v) :: kvs). split; [constructor; assumption |].
    intros Hnd. rewrite dict_set_fresh in Hd.
    + rewrite Hd, <- app_assoc; [reflexivity |].
      rewrite map_app, <- app_assoc. exact Hnd.
    + intros Hin. simpl in Hnd. apply NoDup_remove_2 in Hnd.
      apply Hnd. apply in_or_app. left. exact Hin.
Qed.

Lemma dict_comp_from_total {A V} (f : A -> Outcome (string * V)) xs acc :
  (forall x, In x xs -> exists kv, f x = Return kv) ->
  exists d, dict_comp_from f xs acc = Return d.
Proof.
  revert acc. induction xs as [| x xs IH]; intros acc H; simpl.
  - eauto.
  - destruct (H x (or_introl eq_refl)) as [kv ->]. simpl.
    apply IH. intros; apply H; right; assumption.
Qed.

Section MOGetClasses.

Variable parse_uuid : string -> option UUID.
Variable get_facet_json : UUID -> Outcome json.

Let gcf := get_classes_for_facet get_facet_json.
Let entry := fun (p : string * json) =>
  let '(facet_user_key, facet_classes) := p in
  let* m := class_dict parse_uuid facet_classes in
  Return (facet_user_key, m).

Lemma zip_pairing (facets : list (string * UUID)) gathered kvs :
  Forall2 (fun u g => gcf u = Return g) (map snd facets) gathered ->
  Forall2 (fun p kv => entry p = Return kv) (combine (map fst facets) gathered) kvs ->
  map fst kvs = map fst facets /\
  forall k u, assoc k facets = Some u ->
    exists items m, gcf u = Return items /\
      class_dict parse_uuid items = Return m /\ assoc k kvs = Some m.
Proof.
  revert gathered kvs.
  induction facets as [| [k0 u0] facets IH]; intros gathered kvs Hg Hkv.
  - inversion Hg; subst. simpl in Hkv. inversion Hkv; subst.
    split; [reflexivity | discriminate].
  - inversion Hg as [| u' g0 us gs Hu0 Hgs]; subst.
    simpl in Hkv. inversion Hkv as [| p kv ps kvs' Hp Hps]; subst.
    simpl in Hp. destruct (class_dict parse_uuid g0) as [m0 |] eqn:Hm0;
      simpl in Hp; [| discriminate].
    injection Hp as <-.
    destruct (IH _ _ Hgs Hps) as [Hkeys Hassoc].
    split; [simpl; rewrite Hkeys; reflexivity |].
    intros k u Hk. simpl in Hk |- *.
    destruct (String.eqb k k0).
    + injection Hk as <-. exists g0, m0. auto.
    + apply Hassoc; assumption.
Qed.

End MOGetClasses.

Lemma in_combine_gathered {B} (P : UUID -> B -> Prop) (facets : list (string * UUID)) gathered k g :
  Forall2 P (map snd facets) gathered ->
  In (k, g) (combine (map fst facets) gathered) ->
  exists u, In (k, u) facets /\ P u g.
Proof.
  revert gathered. induction facets as [| [k0 u0] facets IH]; intros gathered Hg Hin.
  - inversion Hg; subst. destruct Hin.
  - inversion Hg; subst. simpl in Hin. destruct Hin as [Heq | Hin].
    + injection Heq as <- <-. exists u0. split; [left; reflexivity | assumption].
    + destruct (IH _ H3 Hin) as [u [Hu HP]]. exists u. split; [right |]; assumption.
Qed.

(** C10: for a dict of facet user keys to facet UUIDs, [mo.get_classes]
    returns, when it returns, a dict with exactly the input's keys in the
    input's order, mapping each facet user key to the class dict built from
    the classes fetched for that facet's own UUID; and it does return when
    every fetch and every class dict succeeds. *)
Theorem get_classes_pairs_facets (parse_uuid : string -> option UUID)
    (get_facet_json : UUID -> Outcome json) (facets : list (string * UUID)) :
  NoDup (map fst facets) ->
  (forall d, MO.get_classes parse_uuid get_facet_json facets = Return d ->
     map fst d = map fst facets /\
     forall k u, assoc k facets = Some u ->
       exists items m, get_classes_for_facet get_facet_json u = Return items /\
         class_dict parse_uuid items = Return m /\ assoc k d = Some m) /\
  ((forall k u, In (k, u) facets ->
      exists items m, get_classes_for_facet get_facet_json u = Return items /\
        class_dict parse_uuid items = Return m) ->
   exists d, MO.get_classes parse_uuid get_facet_json facets = Return d).
Proof.
  intros Hnd. split.
  - intros d H. unfold MO.get_classes in H.
    destruct (map_py (get_classes_for_facet get_facet_json) (map snd facets))
      as [gathered |] eqn:Hg; simpl in H; [| discriminate].
    apply map_py_forall2 in Hg.
    destruct (dict_comp_from_distinct _ _ _ _ H) as [kvs [Hkvs Hd]].
    destruct (zip_pairing parse_uuid get_facet_json facets gathered kvs Hg Hkvs)
      as [Hkeys Hassoc].
    assert (d = kvs) as ->.
    { apply Hd. simpl. rewrite Hkeys. exact Hnd. }
    split; assumption.
  - intros Hall. unfold MO.get_classes.
    destruct (map_py_total (get_classes_for_facet get_facet_json) (map snd facets))
      as [gathered Hg].
    { intros u Hu. apply in_map_iff in Hu as [[k u'] [<- Hin]].
      destruct (Hall k u' Hin) as [items [m [Hi _]]]. eauto. }
    rewrite Hg. simpl. apply map_py_forall2 in Hg.
    apply dict_comp_from_total.
    intros [k g] Hin.
    destruct (in_combine_gathered _ facets gathered k g Hg Hin) as [u [Hu Hgu]].
    destruct (Hall k u Hu) as [items [m [Hi Hm]]].
    rewrite Hgu in Hi. injection Hi as <-. rewrite Hm. simpl. eauto.
Qed.

(** The classes of facet [1] have a string user key; the one class of facet
    [3] has the integer user key [5]. *)
Definition facet_json_test (u : UUID) : Outcome json :=
  Return (JObj [("data", JObj [("items",
    if N.eqb u 1 then JArr [JObj [("user_key", JStr "Ansat"); ("uuid", JStr "8acc")]]
    else JArr [JObj [("user_key", JNum 5); ("uuid", JStr "2cc2")]])])]).

Lemma get_classes_pairs_facets_witness :
  MO.get_classes parse_test facet_json_test
    [("engagement_type", 1%N); ("visibility", 3%N)]
  = Return [("engagement_type", [(JStr "Ansat", 2%N)]); ("visibility", [(JNum 5, 3%N)])] /\
  map fst [("engagement_type", [(JStr "Ansat", 2%N)]); ("visibility", [(JNum 5, 3%N)])]
  = map fst [("engagement_type", 1%N); ("visibility", 3%N)].
Proof.
  assert (Hnd : NoDup (map fst [("engagement_type", 1%N); ("visibility", 3%N)])).
  { repeat constructor; simpl; intuition discriminate. }
  assert (Hget : MO.get_classes parse_test facet_json_test
                   [("engagement_type", 1%N); ("visibility", 3%N)]
                 = Return [("engagement_type", [(JStr "Ansat", 2%N)]);
                           ("visibility", [(JNum 5, 3%N)])])
    by reflexivity.
  split; [exact Hget |].
  exact (proj1 (proj1 (get_classes_pairs_facets parse_test facet_json_test _ Hnd) _ Hget)).
Defined.

(** * Properties of the Fetcher *)

Lemma parse_class_encode parse_uuid str_uuid c :
  parse_uuid (str_uuid (class_uuid c)) = Some (class_uuid c) ->
  parse_class parse_uuid (encode_class str_uuid c) = Return c.
Proof.
  intros Hu. destruct c as [u k n s]. simpl in Hu.
  unfold parse_class, encode_class, UUID_of. cbn. rewrite Hu. reflexivity.
Qed.

Lemma map_parse_class_encode parse_uuid str_uuid cs :
  Forall (fun c => parse_uuid (str_uuid (class_uuid c)) = Some (class_uuid c)) cs ->
  map_py (parse_class parse_uuid) (map (encode_class str_uuid) cs) = Return cs.
Proof.
  induction 1 as [| c cs Hc Hcs IH]; [reflexivity |].
  simpl. rewrite parse_class_encode by assumption. simpl. rewrite IH. reflexivity.
Qed.

(** C6 (modelled from the spec): for any list of facets with their classes,
    the Fetcher parses the nested GraphQL result that lists them back into
    exactly that list, in the listed order of facets and of classes, provided
    the printed UUIDs parse back to themselves. *)
Theorem get_classes_parses_result (parse_uuid : string -> option UUID)
    (str_uuid : UUID -> string) (fs : list Facet) :
  Forall (fun f =>
            parse_uuid (str_uuid (facet_uuid f)) = Some (facet_uuid f) /\
            Forall (fun c => parse_uuid (str_uuid (class_uuid c)) = Some (class_uuid c))
                   (facet_classes f)) fs ->
  Classes.get_classes parse_uuid (Return (encode_facets str_uuid fs)) = Return fs.
Proof.
  intros Hfs. unfold Classes.get_classes, encode_facets. simpl.
  induction Hfs as [| f fs [Hf Hcs] Hfs IH]; [reflexivity |].
  destruct f as [u k cs]. simpl in Hf, Hcs.
  cbn [map map_py]. unfold parse_facet at 1, encode_facet at 1, UUID_of. cbn.
  rewrite Hf. cbn. rewrite map_parse_class_encode by assumption. simpl.
  rewrite IH. reflexivity.
Qed.

Definition str_test (u : UUID) : string :=
  match u with
  | 1%N => "182d"
  | 2%N => "8acc"
  | 3%N => "2cc2"
  | _ => ""
  end.

Definition parse_test2 (s : string) : option UUID :=
  if String.eqb s "940b" then Some 4%N
  else if String.eqb s "c0bb" then Some 5%N
  else parse_test s.

Definition str_test2 (u : UUID) : string :=
  match u with
  | 4%N => "940b"
  | 5%N => "c0bb"
  | _ => str_test u
  end.

(** The two facets of [test_get_classes]. *)
Definition test_facets : list Facet :=
  [mkFacet 1%N "engagement_type" [mkClass 2%N "Ansat" "Ansat" "TEXT"];
   mkFacet 3%N "visibility"
     [mkClass 4%N "Ekstern" "Må vises eksternt" "PUBLIC";
      mkClass 5%N "Secret" "Hemmelig" "SECRET"]].

Lemma get_classes_parses_result_witness :
  Classes.get_classes parse_test2 (Return (encode_facets str_test2 test_facets))
  = Return test_facets.
Proof.
  apply get_classes_parses_result.
  repeat constructor.
Defined.

(** * Properties of the Reconciler *)

Lemma entry_mutations_facet fs fk f cf :
  find_facet fs fk = Some f ->
  flat_map (entry_mutation fs) (map (fun '(ck, cc) => (fk, ck, cc)) cf) =
  map (fun '(ck, cc) => class_mutation f ck cc) cf.
Proof.
  intros Hf. induction cf as [| [ck cc] cf IH]; simpl; [reflexivity |].
  rewrite Hf. simpl. f_equal. exact IH.
Qed.

Lemma plan_app_present fs pre rest :
  facets_present fs pre ->
  plan fs (pre ++ rest) =
  (flat_map (entry_mutation fs) (config_entries pre) ++ fst (plan fs rest),
   snd (plan fs rest)).
Proof.
  induction 1 as [| [fk cf] pre Hfk Hpre IH].
  - simpl. destruct (plan fs rest); reflexivity.
  - simpl. destruct (find_facet fs fk) as [f |] eqn:Hf; [| congruence].
    rewrite IH. unfold config_entries. simpl.
    rewrite flat_map_app, <- app_assoc, (entry_mutations_facet fs fk f) by exact Hf.
    reflexivity.
Qed.

Lemma plan_present fs config :
  facets_present fs config ->
  plan fs config = (flat_map (entry_mutation fs) (config_entries config), None).
Proof.
  intros H. rewrite <- (app_nil_r config), plan_app_present by assumption.
  simpl. rewrite !app_nil_r. reflexivity.
Qed.

(** Every run processes a prefix of the configuration whose facets are all
    present, and stops either at its end or at the first missing facet. *)
Lemma plan_prefix fs config :
  exists pre rest, config = pre ++ rest /\ facets_present fs pre /\
    fst (plan fs config) = flat_map (entry_mutation fs) (config_entries pre) /\
    ((rest = [] /\ snd (plan fs config) = None) \/
     (exists fk cf rest', rest = (fk, cf) :: rest' /\ find_facet fs fk = None /\
        snd (plan fs config) = Some (MissingFacet fk))).
Proof.
  induction config as [| [fk cf] config IH].
  - exists [], []. repeat split; [constructor | left; split; reflexivity].
  - destruct (find_facet fs fk) as [f |] eqn:Hf.
    + destruct IH as [pre [rest [Heq [Hpre [Hms Hend]]]]].
      exists ((fk, cf) :: pre), rest.
      split; [rewrite Heq; reflexivity |].
      split; [constructor; [congruence | exact Hpre] |].
      simpl. rewrite Hf. destruct (plan fs config) as [ms err]. simpl in Hms, Hend |- *.
      split; [| exact Hend].
      rewrite Hms. unfold config_entries. simpl.
      rewrite flat_map_app, (entry_mutations_facet fs fk f) by exact Hf.
      reflexivity.
    + exists [], ((fk, cf) :: config).
      split; [reflexivity |]. split; [constructor |].
      split; [simpl; rewrite Hf; reflexivity |].
      right. exists fk, cf, config. simpl. rewrite Hf. auto.
Qed.

Lemma find_facet_some fs k f :
  find_facet fs k = Some f -> In f fs /\ facet_user_key f = k.
Proof.
  unfold find_facet. intros H. apply find_some in H as [Hin Hk].
  apply String.eqb_eq in Hk. auto.
Qed.

Lemma find_class_some cs k c :
  find_class cs k = Some c -> In c cs /\ class_user_key c = k.
Proof.
  unfold find_class. intros H. apply find_some in H as [Hin Hk].
  apply String.eqb_eq in Hk. auto.
Qed.

Lemma facets_present_not_in fs pre fk :
  facets_present fs pre -> find_facet fs fk = None -> ~ In fk (map fst pre).
Proof.
  induction 1 as [| [fk' cf] pre Hfk Hpre IH]; intros Hnone Hin; [destruct Hin |].
  simpl in Hfk, Hin. destruct Hin as [Heq | Hin].
  - subst fk'. exact (Hfk Hnone).
  - exact (IH Hnone Hin).
Qed.

Lemma in_entries_mutation fs pre fk cf post ck cc f :
  facets_present fs pre -> find_facet fs fk = Some f -> In (ck, cc) cf ->
  In (class_mutation f ck cc)
     (flat_map (entry_mutation fs) (config_entries (pre ++ (fk, cf) :: post))).
Proof.
  intros _ Hf Hin. apply in_flat_map. exists (fk, ck, cc). split.
  - unfold config_entries. apply in_flat_map. exists (fk, cf).
    split; [apply in_or_app; right; left; reflexivity |].
    apply in_map_iff. exists (ck, cc). auto.
  - simpl. rewrite Hf. left. reflexivity.
Qed.

(** ** Runs of [execute] and [ensure_classes] *)

Lemma config_entries_app pre rest :
  config_entries (pre ++ rest) = config_entries pre ++ config_entries rest.
Proof. unfold config_entries. apply flat_map_app. Qed.

Lemma config_entries_cons fk cf rest :
  config_entries ((fk, cf) :: rest) =
  map (fun '(ck, cc) => (fk, ck, cc)) cf ++ config_entries rest.
Proof. reflexivity. Qed.

Lemma config_entries_nil : config_entries (@nil (string * list (string * ConfigClass))) = [].
Proof. reflexivity. Qed.

(** The calls [execute] issues are the first mutations of its list, and the
    state it ends in is the effect of a prefix of them. *)
Lemma execute_prefix reply i ms r :
  (exists rest, ms = snd (fst (execute reply i ms r)) ++ rest) /\
  (exists k, fst (fst (execute reply i ms r)) = fold_left apply_mutation (firstn k ms) r) /\
  (snd (execute reply i ms r) = None ->
     snd (fst (execute reply i ms r)) = ms /\
     fst (fst (execute reply i ms r)) = fold_left apply_mutation ms r).
Proof.
  revert i r. induction ms as [| m ms IH]; intros i r; simpl.
  - split; [exists []; reflexivity |]. split; [exists 0; reflexivity | auto].
  - destruct (reply i) as [| e applied].
    + generalize (IH (S i) (apply_mutation r m)).
      destruct (execute reply (S i) ms (apply_mutation r m)) as [[r' sent] err].
      simpl. intros [[rest Hrest] [[k Hk] Hnone]].
      split; [exists rest; rewrite <- Hrest; reflexivity |].
      split; [exists (S k); simpl; exact Hk |].
      intros Herr. destruct (Hnone Herr) as [-> ->]. auto.
    + simpl. split; [exists ms; reflexivity |]. split; [| discriminate].
      destruct applied; [exists 1 | exists 0]; reflexivity.
Qed.

Lemma execute_all_ok reply i ms r :
  (forall j, j < length ms -> reply (i + j) = Ok) ->
  execute reply i ms r = (fold_left apply_mutation ms r, ms, None).
Proof.
  revert i r. induction ms as [| m ms IH]; intros i r H; simpl; [reflexivity |].
  assert (H0 : reply i = Ok) by (rewrite <- (Nat.add_0_r i); apply H; simpl; lia).
  rewrite H0, IH; [reflexivity |].
  intros j Hj. match goal with |- context [reply ?x] => replace x with (i + S j) by lia end. apply H. simpl. lia.
Qed.

Lemma execute_nth reply i ms r n :
  (forall j, j < n -> reply (i + j) = Ok) -> n < length ms ->
  nth_error (snd (fst (execute reply i ms r))) n = nth_error ms n.
Proof.
  revert i r n. induction ms as [| m ms IH]; intros i r n H Hn; simpl in Hn; [lia |].
  simpl. destruct n as [| n].
  - destruct (reply i) as [| e applied]; [| reflexivity].
    destruct (execute reply (S i) ms (apply_mutation r m)) as [[r' sent] err].
    reflexivity.
  - assert (H0 : reply i = Ok) by (rewrite <- (Nat.add_0_r i); apply H; lia).
    rewrite H0.
    generalize (IH (S i) (apply_mutation r m) n).
    destruct (execute reply (S i) ms (apply_mutation r m)) as [[r' sent] err].
    simpl. intros IH'. apply IH'; [| lia].
    intros j Hj. match goal with |- context [reply ?x] => replace x with (i + S j) by lia end. apply H. lia.
Qed.

Lemma execute_failed reply i ms r j :
  reply (i + j) <> Ok -> length (snd (fst (execute reply i ms r))) <= S j.
Proof.
  revert i r j. induction ms as [| m ms IH]; intros i r j H; simpl; [lia |].
  destruct (reply i) as [| e applied] eqn:Hi; simpl; [| lia].
  destruct j as [| j]; [rewrite Nat.add_0_r in H; congruence |].
  generalize (IH (S i) (apply_mutation r m) j).
  destruct (execute reply (S i) ms (apply_mutation r m)) as [[r' sent] err].
  simpl. intros IH'. enough (length sent <= S j) by lia. apply IH'.
  match goal with |- context [reply ?x] => replace x with (i + S j) by lia end. exact H.
Qed.

Lemma execute_sent_state_indep reply i ms r r' :
  snd (fst (execute reply i ms r)) = snd (fst (execute reply i ms r')) /\
  snd (execute reply i ms r) = snd (execute reply i ms r').
Proof.
  revert i r r'. induction ms as [| m ms IH]; intros i r r'; simpl; [auto |].
  destruct (reply i); simpl; [| auto].
  generalize (IH (S i) (apply_mutation r m) (apply_mutation r' m)).
  destruct (execute reply (S i) ms (apply_mutation r m)) as [[r1 s1] e1].
  destruct (execute reply (S i) ms (apply_mutation r' m)) as [[r2 s2] e2].
  simpl. intros [-> ->]. auto.
Qed.

Lemma ensure_classes_unfold t r config :
  ensure_classes t r config =
  match fetch_reply t with
  | Some e => (r, [], Some (TransportFailure e))
  | None =>
      (fst (fst (execute (call_reply t) 0 (fst (plan (remote_facets r) config)) r)),
       snd (fst (execute (call_reply t) 0 (fst (plan (remote_facets r) config)) r)),
       match snd (execute (call_reply t) 0 (fst (plan (remote_facets r) config)) r) with
       | Some e => Some (TransportFailure e)
       | None => option_map ConfigFailure (snd (plan (remote_facets r) config))
       end)
  end.
Proof.
  unfold ensure_classes. destruct (fetch_reply t); [reflexivity |].
  destruct (plan (remote_facets r) config) as [ms cerr]. simpl.
  destruct (execute (call_reply t) 0 ms r) as [[r' sent] err]. reflexivity.
Qed.

Lemma ensure_classes_calls_prefix t r config :
  exists rest, fst (plan (remote_facets r) config) = snd (fst (ensure_classes t r config)) ++ rest.
Proof.
  rewrite ensure_classes_unfold. destruct (fetch_reply t); simpl.
  - eexists; reflexivity.
  - apply execute_prefix.
Qed.

Lemma ensure_classes_state_prefix t r config :
  exists k, fst (fst (ensure_classes t r config)) =
    fold_left apply_mutation (firstn k (fst (plan (remote_facets r) config))) r.
Proof.
  rewrite ensure_classes_unfold. destruct (fetch_reply t); simpl.
  - exists 0. reflexivity.
  - apply execute_prefix.
Qed.

(** A run ends with a transport failure, or else it has issued all the
    mutations of [plan] and ends with its configuration error, if any. *)
Lemma ensure_classes_error_cases t r config :
  (exists e, snd (ensure_classes t r config) = Some (TransportFailure e)) \/
  (snd (ensure_classes t r config) = option_map ConfigFailure (snd (plan (remote_facets r) config)) /\
   snd (fst (ensure_classes t r config)) = fst (plan (remote_facets r) config)).
Proof.
  rewrite ensure_classes_unfold. destruct (fetch_reply t) as [e |]; simpl; [left; eauto |].
  destruct (snd (execute (call_reply t) 0 (fst (plan (remote_facets r) config)) r))
    as [e |] eqn:He; [left; eauto |].
  right. split; [reflexivity |].
  exact (proj1 (proj2 (proj2 (execute_prefix _ _ _ _)) He)).
Qed.

Lemma ensure_classes_reliable t r config :
  reliable t ->
  ensure_classes t r config =
  (fold_left apply_mutation (fst (plan (remote_facets r) config)) r,
   fst (plan (remote_facets r) config),
   option_map ConfigFailure (snd (plan (remote_facets r) config))).
Proof.
  intros [Hf Hc]. rewrite ensure_classes_unfold, Hf, execute_all_ok by (intros; apply Hc).
  reflexivity.
Qed.

Lemma ensure_classes_nth t r config n :
  fetch_reply t = None -> (forall j, j < n -> call_reply t j = Ok) ->
  n < length (fst (plan (remote_facets r) config)) ->
  nth_error (snd (fst (ensure_classes t r config))) n =
  nth_error (fst (plan (remote_facets r) config)) n.
Proof.
  intros Hf Hc Hn. rewrite ensure_classes_unfold, Hf. simpl.
  apply execute_nth; [exact Hc | exact Hn].
Qed.

Lemma ensure_classes_failed_call t r config j :
  call_reply t j <> Ok -> length (snd (fst (ensure_classes t r config))) <= S j.
Proof.
  intros H. rewrite ensure_classes_unfold. destruct (fetch_reply t); simpl; [lia |].
  apply execute_failed. exact H.
Qed.

Lemma apply_mutation_facet_keys r m :
  map facet_user_key (remote_facets (apply_mutation r m)) = map facet_user_key (remote_facets r).
Proof.
  destruct m as [fu u k n s | fu k n s]; simpl; rewrite map_map; apply map_ext;
    intros f; [reflexivity |].
  unfold append_class. destruct (N.eqb (facet_uuid f) fu); reflexivity.
Qed.

Lemma fold_apply_facet_keys ms r :
  map facet_user_key (remote_facets (fold_left apply_mutation ms r)) =
  map facet_user_key (remote_facets r).
Proof.
  revert r. induction ms as [| m ms IH]; intros r; simpl; [reflexivity |].
  rewrite IH. apply apply_mutation_facet_keys.
Qed.

(** A run changes no facet's natural key: it creates and updates classes
    only. *)
Lemma ensure_classes_facet_keys t r config :
  map facet_user_key (remote_facets (fst (fst (ensure_classes t r config)))) =
  map facet_user_key (remote_facets r).
Proof.
  destruct (ensure_classes_state_prefix t r config) as [k ->].
  apply fold_apply_facet_keys.
Qed.

Lemma find_facet_none_keys fs fs' k :
  map facet_user_key fs' = map facet_user_key fs ->
  (find_facet fs' k = None <-> find_facet fs k = None).
Proof.
  unfold find_facet. revert fs'.
  induction fs as [| f fs IH]; intros [| f' fs'] H; simpl in H; try discriminate; [tauto |].
  injection H as Hk Hks. simpl. rewrite Hk.
  destruct (String.eqb (facet_user_key f) k); [split; discriminate | apply IH; exact Hks].
Qed.

Lemma prefix_of_longer {A} (a b x y : list A) :
  a ++ x = b ++ y -> length a <= length b -> exists z, b = a ++ z.
Proof.
  revert b. induction a as [| u a IH]; intros b H Hlen; [exists b; reflexivity |].
  destruct b as [| v b]; simpl in Hlen; [lia |].
  simpl in H. injection H as -> H.
  destruct (IH b H ltac:(lia)) as [z ->]. exists z. reflexivity.
Qed.

(** A prefix of the configuration whose facets are all present ends before
    any entry whose facet is missing. *)
Lemma present_prefix fs pre' a pre x b :
  pre' ++ a = pre ++ x :: b ->
  facets_present fs pre' -> find_facet fs (fst x) = None ->
  exists z, pre = pre' ++ z.
Proof.
  intros H Hp Hx.
  destruct (Nat.le_gt_cases (length pre') (length pre)) as [Hle | Hgt].
  - exact (prefix_of_longer _ _ _ _ H Hle).
  - destruct (prefix_of_longer pre pre' (x :: b) a (eq_sym H) ltac:(lia)) as [z ->].
    exfalso. rewrite <- app_assoc in H. apply app_inv_head in H.
    destruct z as [| y z]; [rewrite app_nil_r in Hgt; lia |].
    simpl in H. injection H as Hxy _. subst y.
    unfold facets_present in Hp. rewrite Forall_app in Hp. destruct Hp as [_ Hp].
    inversion Hp as [| ? ? Hy _]; subst.
    destruct x as [fk cf]. simpl in Hx, Hy. exact (Hy Hx).
Qed.

(** The calls of every run are the first mutations of the entries of the
    configuration. *)
Lemma calls_prefix_all t r config :
  exists rest, flat_map (entry_mutation (remote_facets r)) (config_entries config) =
               snd (fst (ensure_classes t r config)) ++ rest.
Proof.
  destruct (plan_prefix (remote_facets r) config) as [pre [rest' [Heq [_ [Hms _]]]]].
  destruct (ensure_classes_calls_prefix t r config) as [rest Hrest].
  rewrite Hms in Hrest.
  exists (rest ++ flat_map (entry_mutation (remote_facets r)) (config_entries rest')).
  rewrite Heq at 1. rewrite config_entries_app, flat_map_app, Hrest, app_assoc. reflexivity.
Qed.

(** The calls of a run are the first mutations of the entries listed before
    any entry whose facet is missing. *)
Lemma calls_before_missing t r pre x post :
  find_facet (remote_facets r) (fst x) = None ->
  exists rest, flat_map (entry_mutation (remote_facets r)) (config_entries pre) =
    snd (fst (ensure_classes t r (pre ++ x :: post))) ++ rest.
Proof.
  intros Hx.
  destruct (plan_prefix (remote_facets r) (pre ++ x :: post))
    as [pre' [rest' [Heq [Hp [Hms _]]]]].
  destruct (present_prefix _ pre' rest' pre x post (eq_sym Heq) Hp Hx) as [z Hz].
  destruct (ensure_classes_calls_prefix t r (pre ++ x :: post)) as [rest Hrest].
  rewrite Hms in Hrest.
  exists (rest ++ flat_map (entry_mutation (remote_facets r)) (config_entries z)).
  rewrite Hz at 1. rewrite config_entries_app, flat_map_app, Hrest, app_assoc. reflexivity.
Qed.

Lemma entry_mutations_length fs es :
  length (flat_map (entry_mutation fs) es) <= length es /\
  (Forall (fun e => find_facet fs (fst (fst e)) <> None) es ->
   length (flat_map (entry_mutation fs) es) = length es).
Proof.
  induction es as [| [[fk ck] cc] es [IH1 IH2]]; simpl; [split; [lia | reflexivity] |].
  rewrite length_app. destruct (find_facet fs fk) eqn:Hf; simpl.
  - split; [lia |]. intros H. inversion H; subst. rewrite IH2 by assumption. reflexivity.
  - split; [lia |]. intros H. inversion H as [| ? ? Hn _]. simpl in Hn. congruence.
Qed.

Lemma nth_error_at_length {A} (l1 l2 : list A) x n :
  n = length l1 -> nth_error (l1 ++ x :: l2) n = Some x.
Proof. intros ->. rewrite nth_error_app2 by lia. rewrite Nat.sub_diag. reflexivity. Qed.

Lemma config_entries_split pre fk cl cr post :
  config_entries (pre ++ (fk, cl ++ cr) :: post) =
  config_entries (pre ++ [(fk, cl)]) ++ config_entries ((fk, cr) :: post).
Proof.
  unfold config_entries. rewrite !flat_map_app. simpl.
  rewrite map_app, app_nil_r, <- !app_assoc. reflexivity.
Qed.

(** The mutation of a desired class comes, in [plan], right after those of
    the entries listed before it. *)
Lemma plan_entry fs pre fk cl ck cc cr post f :
  facets_present fs pre -> find_facet fs fk = Some f ->
  exists rest,
    fst (plan fs (pre ++ (fk, cl ++ (ck, cc) :: cr) :: post)) =
    flat_map (entry_mutation fs) (config_entries (pre ++ [(fk, cl)])) ++
    class_mutation f ck cc :: rest.
Proof.
  intros Hpre Hf. rewrite plan_app_present by exact Hpre. simpl. rewrite Hf.
  destruct (plan fs post) as [ms err]. simpl.
  exists (map (fun '(ck0, cc0) => class_mutation f ck0 cc0) cr ++ ms).
  rewrite config_entries_app, config_entries_cons, config_entries_nil, app_nil_r,
    flat_map_app, (entry_mutations_facet fs fk f cl Hf), map_app.
  simpl. rewrite <- !app_assoc. reflexivity.
Qed.

Lemma facets_present_entries fs config :
  facets_present fs config ->
  Forall (fun e => find_facet fs (fst (fst e)) <> None) (config_entries config).
Proof.
  induction 1 as [| [fk cf] config Hfk Hpre IH]; [constructor |].
  unfold config_entries in *. simpl. apply Forall_app. split; [| exact IH].
  apply Forall_forall. intros e He. apply in_map_iff in He as [[ck cc] [<- _]].
  exact Hfk.
Qed.

Lemma missing_facet_dec fs (pre : Config) :
  facets_present fs pre \/ Exists (fun '(fk, _) => find_facet fs fk = None) pre.
Proof.
  destruct (Forall_Exists_dec (fun p : string * ConfigFacet => let '(fk, _) := p in
                                 find_facet fs fk <> None)) with (l := pre)
    as [H | H].
  - intros [fk cf]. destruct (find_facet fs fk); [left; discriminate | right; tauto].
  - left. exact H.
  - right. eapply Exists_impl; [| exact H]. intros [fk cf] Hn.
    destruct (find_facet fs fk); [exfalso; apply Hn; discriminate | reflexivity].
Qed.

(** The call issued for a desired entry [(F, C)] of a present facet [f]:
    the [n]-th call of the run, [n] being the number of entries listed
    before it, is the mutation of [(F, C)] when the run gets that far (the
    fetch and the calls before succeed and the facets before are present);
    otherwise the run stops before, its calls being the first mutations of
    the entries before [(F, C)]. *)
Lemma entry_call t r pre fk cl ck cc cr post f :
  find_facet (remote_facets r) fk = Some f ->
  let config := pre ++ (fk, cl ++ (ck, cc) :: cr) :: post in
  let earlier := config_entries (pre ++ [(fk, cl)]) in
  (fetch_reply t = None -> facets_present (remote_facets r) pre ->
   (forall j, j < length earlier -> call_reply t j = Ok) ->
   nth_error (snd (fst (ensure_classes t r config))) (length earlier) =
   Some (class_mutation f ck cc)) /\
  (fetch_reply t <> None \/
   Exists (fun '(fk', _) => find_facet (remote_facets r) fk' = None) pre \/
   (exists j, j < length earlier /\ call_reply t j <> Ok) ->
   nth_error (snd (fst (ensure_classes t r config))) (length earlier) = None /\
   exists rest, flat_map (entry_mutation (remote_facets r)) earlier =
                snd (fst (ensure_classes t r config)) ++ rest).
Proof.
  intros Hf. cbv zeta.
  set (config := pre ++ (fk, cl ++ (ck, cc) :: cr) :: post).
  set (earlier := config_entries (pre ++ [(fk, cl)])).
  set (calls := snd (fst (ensure_classes t r config))).
  assert (Hfull : facets_present (remote_facets r) pre ->
                  length (flat_map (entry_mutation (remote_facets r)) earlier) = length earlier).
  { intros Hpre. apply entry_mutations_length. apply facets_present_entries.
    unfold facets_present. apply Forall_app.
    split; [exact Hpre | constructor; [simpl; rewrite Hf; discriminate | constructor]]. }
  split.
  - intros Hfetch Hpre Hok.
    destruct (plan_entry _ pre fk cl ck cc cr post f Hpre Hf) as [rest Hplan].
    change (fst (plan (remote_facets r) config) =
            flat_map (entry_mutation (remote_facets r)) earlier ++
            class_mutation f ck cc :: rest) in Hplan.
    unfold calls. rewrite ensure_classes_nth; [| exact Hfetch | exact Hok |].
    + rewrite Hplan. apply nth_error_at_length.
      symmetry. exact (Hfull Hpre).
    + rewrite Hplan, length_app. simpl.
      rewrite (Hfull Hpre). lia.
  - intros Hcase.
    enough (H : exists rest, flat_map (entry_mutation (remote_facets r)) earlier = calls ++ rest).
    { split; [| exact H]. apply nth_error_None.
      destruct H as [rest H].
      pose proof (proj1 (entry_mutations_length (remote_facets r) earlier)) as Hle.
      rewrite H, length_app in Hle. lia. }
    assert (Hmiss : Exists (fun '(fk', _) => find_facet (remote_facets r) fk' = None) pre ->
                    exists rest, flat_map (entry_mutation (remote_facets r)) earlier = calls ++ rest).
    { intros Hm. apply Exists_exists in Hm as [x [Hx Hxn]].
      assert (Hx' : find_facet (remote_facets r) (fst x) = None)
        by (destruct x as [fk' cf']; exact Hxn).
      apply in_split in Hx as [p1 [p2 ->]].
      destruct (calls_before_missing t r p1 x (p2 ++ (fk, cl ++ (ck, cc) :: cr) :: post) Hx')
        as [rest Hrest].
      exists (rest ++ flat_map (entry_mutation (remote_facets r)) (config_entries (x :: p2 ++ [(fk, cl)]))).
      unfold calls, earlier, config. rewrite <- !app_assoc. simpl app.
      rewrite config_entries_app, flat_map_app, Hrest, app_assoc.
      reflexivity. }
    destruct Hcase as [Hfetch | [Hm | [j [Hj Hfail]]]].
    + exists (flat_map (entry_mutation (remote_facets r)) earlier). unfold calls.
      rewrite ensure_classes_unfold.
      destruct (fetch_reply t); [reflexivity | congruence].
    + exact (Hmiss Hm).
    + destruct (missing_facet_dec (remote_facets r) pre) as [Hpre | Hm]; [| exact (Hmiss Hm)].
      destruct (calls_prefix_all t r config) as [rest1 H1].
      fold calls in H1. unfold config in H1. rewrite config_entries_split, flat_map_app in H1.
      destruct (prefix_of_longer calls (flat_map (entry_mutation (remote_facets r)) earlier) rest1
                  (flat_map (entry_mutation (remote_facets r)) (config_entries ((fk, (ck, cc) :: cr) :: post))))
        as [z Hz].
      * exact (eq_sym H1).
      * rewrite (Hfull Hpre). pose proof (ensure_classes_failed_call t r config j Hfail).
        fold calls in H. lia.
      * exists z. exact Hz.
Qed.

(** C1 (corrected), counterexample: the class [Ansat] exists under the
    remote facet [engagement_type]; a facet key listed before it with no
    remote facet, or a failed call before it, ends the run, and no update
    for [Ansat] is issued. *)
Lemma ensure_classes_update_not_reached :
  let entry := ("engagement_type",
                [("Ansat", mkConfigClass "Updated Title" "Updated Scope")]) in
  find_facet (remote_facets test_remote) "engagement_type"
    = Some (mkFacet 1%N "engagement_type" [mkClass 2%N "Ansat" "Ansat" "TEXT"]) /\
  ~ In (ClassUpdate 1%N 2%N "Ansat" "Updated Title" "Updated Scope")
       (snd (fst (ensure_classes reliable_transport test_remote [("missing", []); entry]))) /\
  ~ In (ClassUpdate 1%N 2%N "Ansat" "Updated Title" "Updated Scope")
       (snd (fst (ensure_classes (failing_transport (OtherError "HTTPStatusError")) test_remote
          [("visibility", [("Intern", mkConfigClass "Intern" "TEXT")]); entry]))).
Proof. split; [reflexivity |]. split; vm_compute; intuition discriminate. Qed.

(** C1 (corrected): for a desired entry [(F, C)] where [F] has the remote
    facet [f] and [C] exists in [f]'s class index as [c]: when the run gets
    to the entry (the fetch succeeds, every facet key listed before [F] has
    a remote facet, and the calls before succeed), the call issued right
    after those of the entries listed before is an update carrying [c]'s
    existing identifier, [C] as user key and the desired title and scope;
    otherwise (a failed fetch, an earlier missing facet, or an earlier
    failed call) the run stops before it, and issues only mutations of the
    entries listed before. *)
Theorem ensure_classes_updates_existing (t : Transport) (r : Remote) (pre post : Config)
    (fk : string) (cl cr : ConfigFacet) (ck : string) (cc : ConfigClass)
    (f : Facet) (c : Class) :
  find_facet (remote_facets r) fk = Some f ->
  find_class (facet_classes f) ck = Some c ->
  let config := pre ++ (fk, cl ++ (ck, cc) :: cr) :: post in
  let earlier := config_entries (pre ++ [(fk, cl)]) in
  (fetch_reply t = None -> facets_present (remote_facets r) pre ->
   (forall j, j < length earlier -> call_reply t j = Ok) ->
   nth_error (snd (fst (ensure_classes t r config))) (length earlier) =
   Some (ClassUpdate (facet_uuid f) (class_uuid c) ck (title cc) (scope cc))) /\
  (fetch_reply t <> None \/
   Exists (fun '(fk', _) => find_facet (remote_facets r) fk' = None) pre \/
   (exists j, j < length earlier /\ call_reply t j <> Ok) ->
   nth_error (snd (fst (ensure_classes t r config))) (length earlier) = None /\
   exists rest, flat_map (entry_mutation (remote_facets r)) earlier =
                snd (fst (ensure_classes t r config)) ++ rest).
Proof.
  intros Hf Hc. pose proof (entry_call t r pre fk cl ck cc cr post f Hf) as H.
  unfold class_mutation in H. rewrite Hc in H. exact H.
Qed.

Lemma ensure_classes_updates_existing_witness :
  nth_error (snd (fst (ensure_classes reliable_transport test_remote
                          ([] ++ ("engagement_type",
                                  [] ++ ("Ansat", mkConfigClass "Updated Title" "Updated Scope")
                                     :: []) :: [])))) 0
  = Some (ClassUpdate 1%N 2%N "Ansat" "Updated Title" "Updated Scope") /\
  nth_error (snd (fst (ensure_classes (failing_transport (OtherError "HTTPStatusError"))
                          test_remote
                          ([("visibility", [("Intern", mkConfigClass "Intern" "TEXT")])] ++
                           ("engagement_type",
                            [] ++ ("Ansat", mkConfigClass "Updated Title" "Updated Scope")
                               :: []) :: [])))) 1
  = None.
Proof.
  split.
  - exact (proj1 (ensure_classes_updates_existing reliable_transport test_remote [] []
             "engagement_type" [] [] "Ansat" (mkConfigClass "Updated Title" "Updated Scope")
             (mkFacet 1%N "engagement_type" [mkClass 2%N "Ansat" "Ansat" "TEXT"])
             (mkClass 2%N "Ansat" "Ansat" "TEXT") eq_refl eq_refl)
             eq_refl (Forall_nil _) (fun _ _ => eq_refl)).
  - apply (proj2 (ensure_classes_updates_existing
             (failing_transport (OtherError "HTTPStatusError")) test_remote
             [("visibility", [("Intern", mkConfigClass "Intern" "TEXT")])] []
             "engagement_type" [] [] "Ansat" (mkConfigClass "Updated Title" "Updated Scope")
             (mkFacet 1%N "engagement_type" [mkClass 2%N "Ansat" "Ansat" "TEXT"])
             (mkClass 2%N "Ansat" "Ansat" "TEXT") eq_refl eq_refl)).
    right. right. exists 0. split; [simpl; lia | discriminate].
Defined.

(** C2 (corrected), counterexample: the class [Intern] is absent from the
    remote facet [visibility]; a facet key listed before it with no remote
    facet, or a failed call before it, ends the run, and no create for
    [Intern] is issued. *)
Lemma ensure_classes_create_not_reached :
  let entry := ("visibility",
                [("Intern", mkConfigClass "New Internal Title" "NEW INTERNAL SCOPE")]) in
  find_facet (remote_facets test_remote) "visibility" = Some (mkFacet 3%N "visibility" []) /\
  ~ In (ClassCreate 3%N "Intern" "New Internal Title" "NEW INTERNAL SCOPE")
       (snd (fst (ensure_classes reliable_transport test_remote [("missing", []); entry]))) /\
  ~ In (ClassCreate 3%N "Intern" "New Internal Title" "NEW INTERNAL SCOPE")
       (snd (fst (ensure_classes (failing_transport (OtherError "HTTPStatusError")) test_remote
          [("engagement_type", [("Ansat", mkConfigClass "Updated Title" "Updated Scope")]);
           entry]))).
Proof. split; [reflexivity |]. split; vm_compute; intuition discriminate. Qed.

(** C2 (corrected): for a desired entry [(F, C)] where [F] has the remote
    facet [f] and [C] is absent from [f]'s class index: when the run gets to
    the entry (the fetch succeeds, every facet key listed before [F] has a
    remote facet, and the calls before succeed), the call issued right after
    those of the entries listed before is a create carrying [f]'s
    identifier, [C] as user key and the desired title and scope, and no
    class identifier (a [ClassCreate] has no such field); otherwise the run
    stops before it, and issues only mutations of the entries listed
    before. *)
Theorem ensure_classes_creates_missing (t : Transport) (r : Remote) (pre post : Config)
    (fk : string) (cl cr : ConfigFacet) (ck : string) (cc : ConfigClass) (f : Facet) :
  find_facet (remote_facets r) fk = Some f ->
  find_class (facet_classes f) ck = None ->
  let config := pre ++ (fk, cl ++ (ck, cc) :: cr) :: post in
  let earlier := config_entries (pre ++ [(fk, cl)]) in
  (fetch_reply t = None -> facets_present (remote_facets r) pre ->
   (forall j, j < length earlier -> call_reply t j = Ok) ->
   nth_error (snd (fst (ensure_classes t r config))) (length earlier) =
   Some (ClassCreate (facet_uuid f) ck (title cc) (scope cc))) /\
  (fetch_reply t <> None \/
   Exists (fun '(fk', _) => find_facet (remote_facets r) fk' = None) pre \/
   (exists j, j < length earlier /\ call_reply t j <> Ok) ->
   nth_error (snd (fst (ensure_classes t r config))) (length earlier) = None /\
   exists rest, flat_map (entry_mutation (remote_facets r)) earlier =
                snd (fst (ensure_classes t r config)) ++ rest).
Proof.
  intros Hf Hc. pose proof (entry_call t r pre fk cl ck cc cr post f Hf) as H.
  unfold class_mutation in H. rewrite Hc in H. exact H.
Qed.

Lemma ensure_classes_creates_missing_witness :
  nth_error (snd (fst (ensure_classes reliable_transport test_remote
     ([("engagement_type", [("Ansat", mkConfigClass "Updated Title" "Updated Scope")])] ++
      ("visibility",
       [] ++ ("Intern", mkConfigClass "New Internal Title" "NEW INTERNAL SCOPE") :: [])
      :: [])))) 1
  = Some (ClassCreate 3%N "Intern" "New Internal Title" "NEW INTERNAL SCOPE") /\
  nth_error (snd (fst (ensure_classes reliable_transport test_remote
     ([("missing", [])] ++
      ("visibility",
       [] ++ ("Intern", mkConfigClass "New Internal Title" "NEW INTERNAL SCOPE") :: [])
      :: [])))) 0
  = None.
Proof.
  split.
  - apply (proj1 (ensure_classes_creates_missing reliable_transport test_remote
             [("engagement_type", [("Ansat", mkConfigClass "Updated Title" "Updated Scope")])]
             [] "visibility" [] [] "Intern"
             (mkConfigClass "New Internal Title" "NEW INTERNAL SCOPE")
             (mkFacet 3%N "visibility" []) eq_refl eq_refl)).
    + reflexivity.
    + constructor; [simpl; discriminate | constructor].
    + intros j _. reflexivity.
  - apply (proj2 (ensure_classes_creates_missing reliable_transport test_remote
             [("missing", [])] [] "visibility" [] [] "Intern"
             (mkConfigClass "New Internal Title" "NEW INTERNAL SCOPE")
             (mkFacet 3%N "visibility" []) eq_refl eq_refl)).
    right. left. constructor. reflexivity.
Defined.

(** C8 (corrected), counterexample: with two desired facet keys missing
    remotely, the run names only the first one ([org_unit_type]), not the
    later missing key [address_type]; and a failed fetch ends the run with
    that transport failure instead of a configuration error. *)
Lemma ensure_classes_names_first_missing :
  let config := [("org_unit_type", [("Afdeling", mkConfigClass "Afdeling" "TEXT")]);
                 ("engagement_type", [("Ansat", mkConfigClass "Ansat" "TEXT")]);
                 ("address_type", [("Email", mkConfigClass "Email" "EMAIL")])] in
  find_facet (remote_facets test_remote) "address_type" = None /\
  snd (ensure_classes reliable_transport test_remote config)
    = Some (ConfigFailure (MissingFacet "org_unit_type")) /\
  snd (ensure_classes (mkTransport (Some (OtherError "ConnectError")) (fun _ => Ok))
         test_remote config)
    = Some (TransportFailure (OtherError "ConnectError")).
Proof. split; [reflexivity | split; reflexivity]. Qed.

(** C8 (corrected): when a facet key [fk] of the desired configuration has
    no remote facet, no mutation is issued for any class under [fk] or
    after the first missing facet key [fk0] (at or before [fk]): the calls
    are the first mutations of the entries before [fk0].  The run ends
    with the configuration error [MissingFacet fk0] or with a transport
    failure, and with a reliable transport exactly with [MissingFacet fk0],
    after the mutations of all the entries before [fk0]. *)
Theorem ensure_classes_missing_facet (t : Transport) (r : Remote) (config : Config)
    (fk : string) :
  In fk (map fst config) ->
  find_facet (remote_facets r) fk = None ->
  exists pre fk0 cf0 post,
    config = pre ++ (fk0, cf0) :: post /\
    facets_present (remote_facets r) pre /\
    find_facet (remote_facets r) fk0 = None /\
    In fk (fk0 :: map fst post) /\
    ~ In fk (map fst pre) /\
    (exists rest, flat_map (entry_mutation (remote_facets r)) (config_entries pre) =
                  snd (fst (ensure_classes t r config)) ++ rest) /\
    (snd (ensure_classes t r config) = Some (ConfigFailure (MissingFacet fk0)) \/
     exists e, snd (ensure_classes t r config) = Some (TransportFailure e)) /\
    (reliable t ->
     snd (ensure_classes t r config) = Some (ConfigFailure (MissingFacet fk0)) /\
     snd (fst (ensure_classes t r config)) =
       flat_map (entry_mutation (remote_facets r)) (config_entries pre)).
Proof.
  intros Hin Hnone.
  destruct (plan_prefix (remote_facets r) config)
    as [pre [rest [Heq [Hpre [Hms Hend]]]]].
  assert (Hnot : ~ In fk (map fst pre)) by (eapply facets_present_not_in; eauto).
  destruct Hend as [[-> _] | [fk0 [cf0 [post [-> [H0 Herr]]]]]].
  - exfalso. rewrite Heq, app_nil_r in Hin. contradiction.
  - exists pre, fk0, cf0, post.
    split; [exact Heq |]. split; [exact Hpre |]. split; [exact H0 |].
    split.
    { rewrite Heq, map_app in Hin. apply in_app_or in Hin as [Hin | Hin];
        [contradiction | exact Hin]. }
    split; [exact Hnot |].
    split.
    { destruct (ensure_classes_calls_prefix t r config) as [rest Hrest].
      exists rest. rewrite <- Hms. exact Hrest. }
    split.
    { destruct (ensure_classes_error_cases t r config) as [He | [He _]]; [right; exact He |].
      left. rewrite He, Herr. reflexivity. }
    intros Ht. rewrite ensure_classes_reliable by exact Ht. simpl.
    rewrite Herr, Hms. split; reflexivity.
Qed.

Lemma ensure_classes_missing_facet_witness :
  exists fk0,
    find_facet (remote_facets test_remote) fk0 = None /\
    snd (ensure_classes reliable_transport test_remote
           [("engagement_type", [("Ansat", mkConfigClass "Updated Title" "Updated Scope")]);
            ("org_unit_type", [("Afdeling", mkConfigClass "Afdeling" "TEXT")]);
            ("visibility", [("Intern", mkConfigClass "New Internal Title" "NEW INTERNAL SCOPE")])])
    = Some (ConfigFailure (MissingFacet fk0)).
Proof.
  destruct (ensure_classes_missing_facet reliable_transport test_remote
              [("engagement_type", [("Ansat", mkConfigClass "Updated Title" "Updated Scope")]);
               ("org_unit_type", [("Afdeling", mkConfigClass "Afdeling" "TEXT")]);
               ("visibility", [("Intern", mkConfigClass "New Internal Title" "NEW INTERNAL SCOPE")])]
              "org_unit_type" ltac:(simpl; tauto) eq_refl)
    as [pre [fk0 [cf0 [post [_ [_ [H0 [_ [_ [_ [_ Hrel]]]]]]]]]]].
  exists fk0. split; [exact H0 |].
  exact (proj1 (Hrel (conj eq_refl (fun _ => eq_refl)))).
Defined.

Lemma class_mutation_target f ck cc :
  mutation_facet (class_mutation f ck cc) = facet_uuid f /\
  mutation_user_key (class_mutation f ck cc) = ck.
Proof.
  unfold class_mutation. destruct (find_class (facet_classes f) ck); auto.
Qed.

Lemma entry_mutations_targets fs pre :
  facets_present fs pre ->
  map (fun m => (Some (mutation_facet m), mutation_user_key m))
      (flat_map (entry_mutation fs) (config_entries pre)) =
  map (fun '(fk, ck, _) => (option_map facet_uuid (find_facet fs fk), ck))
      (config_entries pre).
Proof.
  induction 1 as [| [fk cf] pre Hfk Hpre IH]; [reflexivity |].
  simpl in Hfk. destruct (find_facet fs fk) as [f |] eqn:Hf; [| congruence].
  unfold config_entries in *. simpl.
  rewrite flat_map_app, !map_app, IH, (entry_mutations_facet fs fk f) by exact Hf.
  f_equal. clear IH. induction cf as [| [ck cc] cf IHcf]; [reflexivity |].
  simpl. rewrite IHcf, Hf. destruct (class_mutation_target f ck cc) as [-> ->].
  reflexivity.
Qed.

Lemma find_key_perm {A} (key : A -> string) (k : string) (l l' : list A) :
  Permutation l l' -> NoDup (map key l) ->
  find (fun x => String.eqb (key x) k) l = find (fun x => String.eqb (key x) k) l'.
Proof.
  induction 1 as [| x l l' Hp IH | x y l | l l' l'' H1 IH1 H2 IH2]; intros Hnd.
  - reflexivity.
  - simpl in *. inversion Hnd; subst.
    destruct (String.eqb (key x) k); [reflexivity | auto].
  - simpl in *. inversion Hnd as [| ? ? Hy Hnd']; subst.
    destruct (String.eqb_spec (key y) k) as [Hyk | Hyk];
      destruct (String.eqb_spec (key x) k) as [Hxk | Hxk]; try reflexivity.
    exfalso. apply Hy. left. congruence.
  - rewrite IH1 by exact Hnd. apply IH2.
    apply (Permutation_NoDup (Permutation_map key H1) Hnd).
Qed.

Lemma find_key_forall2 {A B} (ka : A -> string) (kb : B -> string) (R : A -> B -> Prop)
    (k : string) (l : list A) (l' : list B) :
  Forall2 R l l' -> (forall x y, R x y -> ka x = kb y) ->
  match find (fun x => String.eqb (ka x) k) l,
        find (fun y => String.eqb (kb y) k) l' with
  | Some x, Some y => R x y /\ In x l
  | None, None => True
  | _, _ => False
  end.
Proof.
  intros H HR. induction H as [| x y l l' Hxy Hl IH]; [exact I |].
  simpl. rewrite (HR x y Hxy).
  destruct (String.eqb (kb y) k); [split; [exact Hxy | left; reflexivity] |].
  destruct (find _ l), (find _ l'); auto. destruct IH as [IH1 IH2]. split; [exact IH1 | right; exact IH2].
Qed.

Lemma plan_reordered fs fs' config :
  reordered fs fs' ->
  NoDup (map facet_user_key fs) ->
  Forall (fun f => NoDup (map class_user_key (facet_classes f))) fs ->
  plan fs' config = plan fs config.
Proof.
  intros [fs'' [Hp Hf2]] Hnd Hcl.
  assert (Hfind : forall fk,
    match find_facet fs fk, find_facet fs' fk with
    | Some f, Some f' => forall ck cc, class_mutation f' ck cc = class_mutation f ck cc
    | None, None => True
    | _, _ => False
    end).
  { intros fk. unfold find_facet.
    rewrite (find_key_perm facet_user_key fk fs fs'' Hp Hnd).
    pose proof (find_key_forall2 facet_user_key facet_user_key _ fk fs'' fs' Hf2
                  (fun x y H => proj1 (proj2 H))) as H.
    destruct (find _ fs'') as [f |], (find _ fs') as [f' |]; try contradiction; [| exact I].
    destruct H as [[Hu [_ Hperm]] Hin].
    intros ck cc. unfold class_mutation. rewrite <- Hu.
    assert (Hndc : NoDup (map class_user_key (facet_classes f))).
    { rewrite Forall_forall in Hcl. apply Hcl.
      apply (Permutation_in _ (Permutation_sym Hp) Hin). }
    unfold find_class. rewrite (find_key_perm class_user_key ck _ _ Hperm Hndc).
    reflexivity. }
  induction config as [| [fk cf] config IH]; [reflexivity |].
  simpl. specialize (Hfind fk).
  destruct (find_facet fs fk) as [f |], (find_facet fs' fk) as [f' |];
    try contradiction; [| reflexivity].
  rewrite IH. destruct (plan fs config). f_equal. f_equal.
  apply map_ext. intros [ck cc]. apply Hfind.
Qed.

(** C3 (modelled from the spec): the mutation calls of a run target, one by
    one, the (facet, class key) entries of the desired configuration in its
    iteration order: they are the first of the targets of the entries up to
    the end of the configuration or up to the first facet key with no
    remote facet, all of them unless a transport failure ended the run; and
    listing the remote facets, and the classes of each facet, in another
    order (natural keys being unique) leaves the calls issued, and the
    error, unchanged. *)
Theorem ensure_classes_config_order (t : Transport) (r : Remote) (config : Config) :
  (exists pre rest unsent,
     config = pre ++ rest /\
     facets_present (remote_facets r) pre /\
     map (fun m => (Some (mutation_facet m), mutation_user_key m))
         (snd (fst (ensure_classes t r config))) ++ unsent =
     map (fun '(fk, ck, _) => (option_map facet_uuid (find_facet (remote_facets r) fk), ck))
         (config_entries pre) /\
     ((rest = [] /\ unsent = [] /\ snd (ensure_classes t r config) = None) \/
      (exists fk cf rest', rest = (fk, cf) :: rest' /\
         find_facet (remote_facets r) fk = None /\ unsent = [] /\
         snd (ensure_classes t r config) = Some (ConfigFailure (MissingFacet fk))) \/
      (exists e, snd (ensure_classes t r config) = Some (TransportFailure e)))) /\
  (forall fs',
     reordered (remote_facets r) fs' ->
     NoDup (map facet_user_key (remote_facets r)) ->
     Forall (fun f => NoDup (map class_user_key (facet_classes f))) (remote_facets r) ->
     snd (fst (ensure_classes t (mkRemote fs' (remote_next r)) config)) =
     snd (fst (ensure_classes t r config)) /\
     snd (ensure_classes t (mkRemote fs' (remote_next r)) config) =
     snd (ensure_classes t r config)).
Proof.
  split.
  - destruct (plan_prefix (remote_facets r) config)
      as [pre [rest [Heq [Hpre [Hms Hend]]]]].
    destruct (ensure_classes_calls_prefix t r config) as [unsent Hsr].
    exists pre, rest, (map (fun m => (Some (mutation_facet m), mutation_user_key m)) unsent).
    split; [exact Heq |]. split; [exact Hpre |]. split.
    + rewrite <- map_app, <- Hsr, Hms. apply entry_mutations_targets. exact Hpre.
    + destruct (ensure_classes_error_cases t r config) as [He | [Herr Hcalls]];
        [right; right; exact He |].
      assert (Hnil : unsent = []).
      { rewrite Hcalls in Hsr. apply (f_equal (@length _)) in Hsr.
        rewrite length_app in Hsr. destruct unsent; [reflexivity | simpl in Hsr; lia]. }
      subst unsent. rewrite Herr.
      destruct Hend as [[-> Hn] | [fk [cf [rest' [-> [Hn Hc]]]]]].
      * left. rewrite Hn. auto.
      * right; left. exists fk, cf, rest'. rewrite Hc. auto.
  - intros fs' Hre Hnd Hcl. rewrite !ensure_classes_unfold.
    change (remote_facets (mkRemote fs' (remote_next r))) with fs'.
    rewrite (plan_reordered _ _ _ Hre Hnd Hcl).
    destruct (fetch_reply t); [split; reflexivity |].
    destruct (execute_sent_state_indep (call_reply t) 0 (fst (plan (remote_facets r) config))
                (mkRemote fs' (remote_next r)) r) as [H1 H2].
    simpl. rewrite H1, H2. split; reflexivity.
Qed.

Lemma ensure_classes_config_order_witness :
  snd (fst (ensure_classes reliable_transport
              (mkRemote (rev (remote_facets test_remote)) 10%N) test_config)) =
  snd (fst (ensure_classes reliable_transport test_remote test_config)).
Proof.
  apply (proj2 (ensure_classes_config_order reliable_transport test_remote test_config)).
  - exists (rev (remote_facets test_remote)). split.
    + apply Permutation_rev.
    + repeat constructor.
  - repeat constructor; simpl; intuition discriminate.
  - repeat constructor; simpl; intuition discriminate.
Defined.

Lemma NoDup_app_disjoint {A} (l1 l2 : list A) x :
  NoDup (l1 ++ l2) -> In x l1 -> In x l2 -> False.
Proof.
  induction l1 as [| a l1 IH]; intros Hnd H1 H2; [destruct H1 |].
  inversion Hnd as [| ? ? Ha Hnd']; subst.
  destruct H1 as [-> | H1]; [apply Ha; apply in_or_app; right; exact H2 |].
  exact (IH Hnd' H1 H2).
Qed.

Lemma NoDup_map_inj {A B} (f : A -> B) l x y :
  NoDup (map f l) -> In x l -> In y l -> f x = f y -> x = y.
Proof.
  induction l as [| a l IH]; intros Hnd Hx Hy Hxy; [destruct Hx |].
  simpl in Hnd. inversion Hnd as [| ? ? Ha Hnd']; subst.
  destruct Hx as [-> | Hx], Hy as [-> | Hy]; auto.
  - exfalso. apply Ha. rewrite Hxy. apply in_map. exact Hy.
  - exfalso. apply Ha. rewrite <- Hxy. apply in_map. exact Hx.
Qed.

(** Two classes of a remote facet list with the same identifier are the same
    class of the same facet. *)
Lemma class_uuid_unique fs f g c c' :
  NoDup (all_class_uuids fs) ->
  In f fs -> In c (facet_classes f) -> In g fs -> In c' (facet_classes g) ->
  class_uuid c = class_uuid c' -> f = g /\ c = c'.
Proof.
  induction fs as [| h fs IH]; intros Hnd Hf Hc Hg Hc' Hu; [destruct Hf |].
  unfold all_class_uuids in Hnd. simpl in Hnd. fold (all_class_uuids fs) in Hnd.
  assert (Hdis : forall f' c'', In f' fs -> In c'' (facet_classes f') ->
                  In (class_uuid c'') (map class_uuid (facet_classes h)) -> False).
  { intros f' c'' Hf' Hc'' Hin. apply (NoDup_app_disjoint _ _ _ Hnd Hin).
    apply in_flat_map. exists f'. split; [exact Hf' | apply in_map; exact Hc'']. }
  destruct Hf as [Hf | Hf], Hg as [Hg | Hg]; subst.
  - split; [reflexivity |].
    eapply NoDup_map_inj; [eapply NoDup_app_remove_r; exact Hnd | exact Hc | exact Hc' | exact Hu].
  - exfalso. apply (Hdis g c' Hg Hc'). rewrite <- Hu. apply in_map. exact Hc.
  - exfalso. apply (Hdis f c Hf Hc). rewrite Hu. apply in_map. exact Hc'.
  - apply IH; auto. eapply NoDup_app_remove_l. exact Hnd.
Qed.


(** Every update of a run targets the class found, by natural key, under the
    facet found for some desired entry. *)
Lemma plan_update_target fs config m u :
  In m (fst (plan fs config)) -> mutation_uuid m = Some u ->
  exists fk ck cc g c,
    In (fk, ck, cc) (config_entries config) /\
    find_facet fs fk = Some g /\ find_class (facet_classes g) ck = Some c /\
    class_uuid c = u.
Proof.
  intros Hm Hu.
  destruct (plan_prefix fs config) as [pre [rest [Heq [_ [Hms _]]]]].
  rewrite Hms in Hm. apply in_flat_map in Hm as [[[fk ck] cc] [He Hm]].
  simpl in Hm. destruct (find_facet fs fk) as [g |] eqn:Hg; [| destruct Hm].
  destruct Hm as [<- | []].
  unfold class_mutation in Hu.
  destruct (find_class (facet_classes g) ck) as [c |] eqn:Hc; [| discriminate].
  injection Hu as Hu. exists fk, ck, cc, g, c.
  split; [rewrite Heq, config_entries_app; apply in_or_app; left; exact He |].
  auto.
Qed.

(** A class no mutation targets stays, unchanged, in its facet. *)
Lemma apply_mutations_frame ms r f c :
  Forall (fun m => mutation_uuid m <> Some (class_uuid c)) ms ->
  In f (remote_facets r) -> In c (facet_classes f) ->
  exists f', In f' (remote_facets (fold_left apply_mutation ms r)) /\
    facet_uuid f' = facet_uuid f /\ facet_user_key f' = facet_user_key f /\
    In c (facet_classes f').
Proof.
  intros Hms. revert r f. induction Hms as [| m ms Hm Hms IH]; intros r f Hf Hc.
  - exists f. auto.
  - simpl. destruct m as [fu u k n s | fu k n s].
    + destruct (IH (apply_mutation r (ClassUpdate fu u k n s))
                  (mkFacet (facet_uuid f) (facet_user_key f)
                        (map (update_class u k n s) (facet_classes f))))
        as [f' [Hf' [Hu' [Hk' Hc']]]].
      * simpl. apply in_map_iff. exists f. auto.
      * simpl. apply in_map_iff. exists c. split; [| exact Hc].
        unfold update_class. simpl in Hm.
        destruct (N.eqb_spec (class_uuid c) u) as [Heq | _]; [congruence | reflexivity].
      * exists f'. auto.
    + destruct (IH (apply_mutation r (ClassCreate fu k n s)) (append_class fu (mkClass (remote_next r) k n s) f))
        as [f' [Hf' [Hu' [Hk' Hc']]]].
      * simpl. apply in_map. exact Hf.
      * unfold append_class. destruct (N.eqb (facet_uuid f) fu); simpl;
          [apply in_or_app; left |]; exact Hc.
      * exists f'. unfold append_class in Hu', Hk'.
        destruct (N.eqb (facet_uuid f) fu); auto.
Qed.

(** C7 (corrected), counterexample: a configuration with one (facet, class)
    entry whose facet is missing remotely gets no write at all; and a
    failed first call ends a run with two entries after one write. *)
Lemma ensure_classes_no_write_for_missing_facet :
  let config := [("org_unit_type", [("Afdeling", mkConfigClass "Afdeling" "TEXT")])] in
  length (config_pairs config) = 1 /\
  snd (fst (ensure_classes reliable_transport test_remote config)) = [] /\
  length (config_pairs test_config) = 2 /\
  length (snd (fst (ensure_classes (failing_transport (OtherError "HTTPStatusError"))
                                   test_remote test_config))) = 1.
Proof. repeat split; reflexivity. Qed.

(** C7 (corrected): with a reliable transport, when every facet key of the
    desired configuration has a remote facet, a run completes without
    error and issues exactly one mutation per (facet, class) entry, in
    order, each targeting that entry's facet and class key.  A run meeting
    a facet key with no remote facet issues mutations only for entries
    listed before it, none for its entries or later ones, and a run whose
    [j]-th call fails issues at most [j + 1] calls.  In every run, when
    remote class identifiers are unique, no mutation targets a remote class
    whose natural key is absent from the desired configuration for its
    facet, and that class is still in its facet, unchanged, after the
    run. *)
Theorem ensure_classes_writes_and_frame (t : Transport) (r : Remote) (config : Config) :
  (reliable t -> facets_present (remote_facets r) config ->
     snd (ensure_classes t r config) = None /\
     length (snd (fst (ensure_classes t r config))) = length (config_pairs config) /\
     map (fun m => (Some (mutation_facet m), mutation_user_key m))
         (snd (fst (ensure_classes t r config))) =
     map (fun '(fk, ck, _) => (option_map facet_uuid (find_facet (remote_facets r) fk), ck))
         (config_entries config)) /\
  (forall pre fk cf post,
     config = pre ++ (fk, cf) :: post ->
     find_facet (remote_facets r) fk = None ->
     exists rest, flat_map (entry_mutation (remote_facets r)) (config_entries pre) =
                  snd (fst (ensure_classes t r config)) ++ rest) /\
  (forall j, call_reply t j <> Ok ->
     length (snd (fst (ensure_classes t r config))) <= S j) /\
  (NoDup (all_class_uuids (remote_facets r)) ->
   forall f c,
     In f (remote_facets r) -> In c (facet_classes f) ->
     ~ In (facet_user_key f, class_user_key c) (config_pairs config) ->
     Forall (fun m => mutation_uuid m <> Some (class_uuid c))
            (snd (fst (ensure_classes t r config))) /\
     exists f', In f' (remote_facets (fst (fst (ensure_classes t r config)))) /\
       facet_uuid f' = facet_uuid f /\ facet_user_key f' = facet_user_key f /\
       In c (facet_classes f')).
Proof.
  split; [| split; [| split]].
  - intros Ht Hpre. rewrite ensure_classes_reliable, (plan_present _ _ Hpre) by exact Ht.
    simpl.
    pose proof (entry_mutations_targets _ _ Hpre) as Htg.
    split; [reflexivity |]. split; [| exact Htg].
    unfold config_pairs. rewrite length_map.
    rewrite <- (length_map (fun m => (Some (mutation_facet m), mutation_user_key m))), Htg.
    apply length_map.
  - intros pre fk cf post -> Hnone.
    exact (calls_before_missing t r pre (fk, cf) post Hnone).
  - intros j Hj. exact (ensure_classes_failed_call t r config j Hj).
  - intros Hnd f c Hf Hc Hnot.
    assert (Hms : Forall (fun m => mutation_uuid m <> Some (class_uuid c))
                         (fst (plan (remote_facets r) config))).
    { apply Forall_forall. intros m Hm Hu.
      destruct (plan_update_target _ _ _ _ Hm Hu)
        as [fk [ck [cc [g [c' [He [Hg [Hc' Hu']]]]]]]].
      apply find_facet_some in Hg as [Hg Hgk].
      apply find_class_some in Hc' as [Hc' Hck].
      destruct (class_uuid_unique _ _ _ _ _ Hnd Hf Hc Hg Hc' (eq_sym Hu'))
        as [<- <-].
      apply Hnot. unfold config_pairs. apply in_map_iff.
      exists (fk, ck, cc). subst. auto. }
    split.
    + destruct (ensure_classes_calls_prefix t r config) as [rest Hrest].
      rewrite Hrest in Hms. apply Forall_app in Hms. exact (proj1 Hms).
    + destruct (ensure_classes_state_prefix t r config) as [k ->].
      apply apply_mutations_frame; [| exact Hf | exact Hc].
      rewrite <- (firstn_skipn k (fst (plan (remote_facets r) config))) in Hms.
      apply Forall_app in Hms. exact (proj1 Hms).
Qed.

Lemma ensure_classes_writes_and_frame_witness :
  length (snd (fst (ensure_classes reliable_transport test_remote test_config))) =
    length (config_pairs test_config) /\
  (exists rest, flat_map (entry_mutation (remote_facets test_remote))
                  (config_entries [("engagement_type",
                                    [("Ansat", mkConfigClass "Updated Title" "Updated Scope")])]) =
     snd (fst (ensure_classes reliable_transport test_remote
        [("engagement_type", [("Ansat", mkConfigClass "Updated Title" "Updated Scope")]);
         ("org_unit_type", [("Afdeling", mkConfigClass "Afdeling" "TEXT")])])) ++ rest) /\
  length (snd (fst (ensure_classes (failing_transport (OtherError "HTTPStatusError"))
                                   test_remote test_config))) <= 1 /\
  exists f', In f' (remote_facets (fst (fst (ensure_classes
                 (failing_transport (OtherError "HTTPStatusError")) test_remote
                 [("engagement_type", [("Intern", mkConfigClass "Intern" "TEXT")]);
                  ("visibility", [])])))) /\
    facet_uuid f' = 1%N /\ facet_user_key f' = "engagement_type" /\
    In (mkClass 2%N "Ansat" "Ansat" "TEXT") (facet_classes f').
Proof.
  split; [| split; [| split]].
  - apply (proj1 (ensure_classes_writes_and_frame reliable_transport test_remote test_config)).
    + split; [reflexivity | intros; reflexivity].
    + repeat constructor; simpl; discriminate.
  - apply (proj1 (proj2 (ensure_classes_writes_and_frame reliable_transport test_remote
       [("engagement_type", [("Ansat", mkConfigClass "Updated Title" "Updated Scope")]);
        ("org_unit_type", [("Afdeling", mkConfigClass "Afdeling" "TEXT")])]))
       [("engagement_type", [("Ansat", mkConfigClass "Updated Title" "Updated Scope")])]
       "org_unit_type" [("Afdeling", mkConfigClass "Afdeling" "TEXT")] []).
    + reflexivity.
    + reflexivity.
  - apply (proj1 (proj2 (proj2 (ensure_classes_writes_and_frame
       (failing_transport (OtherError "HTTPStatusError")) test_remote test_config))) 0).
    discriminate.
  - destruct (proj2 (proj2 (proj2 (ensure_classes_writes_and_frame
                 (failing_transport (OtherError "HTTPStatusError")) test_remote
                 [("engagement_type", [("Intern", mkConfigClass "Intern" "TEXT")]);
                  ("visibility", [])])))
                (ltac:(repeat constructor; simpl; tauto))
                (mkFacet 1%N "engagement_type" [mkClass 2%N "Ansat" "Ansat" "TEXT"])
                (mkClass 2%N "Ansat" "Ansat" "TEXT")
                (or_introl eq_refl) (or_introl eq_refl) ltac:(simpl; intuition discriminate))
      as [_ H]. exact H.
Defined.

(** ** Executing the mutations of one entry *)

Lemma find_map_key {A B} (p : B -> bool) (q : A -> bool) (h : A -> B) (l : list A) :
  (forall x, In x l -> p (h x) = q x) ->
  find p (map h l) = option_map h (find q l).
Proof.
  induction l as [| x l IH]; intros H; [reflexivity |].
  simpl. rewrite (H x (or_introl eq_refl)).
  destruct (q x); [reflexivity |]. apply IH. intros; apply H; right; assumption.
Qed.

Lemma find_app_none {A} (p : A -> bool) l1 l2 :
  find p l1 = None -> find p (l1 ++ l2) = find p l2.
Proof.
  induction l1 as [| x l1 IH]; intros H; [reflexivity |].
  simpl in *. destruct (p x); [discriminate | auto].
Qed.

Lemma find_app_some {A} (p : A -> bool) l1 l2 x :
  find p l1 = Some x -> find p (l1 ++ l2) = Some x.
Proof.
  induction l1 as [| y l1 IH]; intros H; [discriminate |].
  simpl in *. destruct (p y); auto.
Qed.

Lemma class_mutation_same f f' ck cc :
  facet_uuid f' = facet_uuid f ->
  option_map class_uuid (find_class (facet_classes f') ck) =
  option_map class_uuid (find_class (facet_classes f) ck) ->
  class_mutation f' ck cc = class_mutation f ck cc.
Proof.
  intros Hu Hc. unfold class_mutation. rewrite Hu.
  destruct (find_class (facet_classes f') ck), (find_class (facet_classes f) ck);
    simpl in Hc; try discriminate; [injection Hc as -> |]; reflexivity.
Qed.

Section UpdateStep.

Variables (r : Remote) (fk ck : string) (cc : ConfigClass) (g : Facet) (c : Class).
Hypothesis Hwf : remote_wf r.
Hypothesis Hg : find_facet (remote_facets r) fk = Some g.
Hypothesis Hc : find_class (facet_classes g) ck = Some c.

Let U := update_class (class_uuid c) ck (title cc) (scope cc).
Let F := fun f => mkFacet (facet_uuid f) (facet_user_key f) (map U (facet_classes f)).
Let r' := apply_mutation r (ClassUpdate (facet_uuid g) (class_uuid c) ck (title cc) (scope cc)).

Lemma update_class_fields f x :
  In f (remote_facets r) -> In x (facet_classes f) ->
  class_user_key (U x) = class_user_key x /\ class_uuid (U x) = class_uuid x /\
  (class_uuid x <> class_uuid c -> U x = x).
Proof.
  intros Hf Hx. destruct Hwf as [_ [Hnd _]].
  destruct (find_facet_some _ _ _ Hg) as [Hgin Hgk].
  destruct (find_class_some _ _ _ Hc) as [Hcin Hck].
  unfold U, update_class.
  destruct (N.eqb_spec (class_uuid x) (class_uuid c)) as [Heq | Hne].
  - destruct (class_uuid_unique _ _ _ _ _ Hnd Hf Hx Hgin Hcin Heq) as [_ ->].
    simpl. split; [symmetry; exact Hck |].
    split; [reflexivity | intros Habs; contradiction Habs; reflexivity].
  - auto.
Qed.

Lemma update_find_facet k :
  find_facet (remote_facets r') k = option_map F (find_facet (remote_facets r) k).
Proof. unfold find_facet. apply find_map_key. reflexivity. Qed.

Lemma update_find_class f k :
  In f (remote_facets r) ->
  find_class (facet_classes (F f)) k = option_map U (find_class (facet_classes f) k).
Proof.
  intros Hf. unfold find_class. apply find_map_key.
  intros x Hx. destruct (update_class_fields f x Hf Hx) as [-> _]. reflexivity.
Qed.

Lemma update_step_wf : remote_wf r'.
Proof.
  destruct Hwf as [H1 [H2 H3]].
  assert (Hall : all_class_uuids (remote_facets r') = all_class_uuids (remote_facets r)).
  { unfold r', all_class_uuids. simpl. rewrite flat_map_concat_map, map_map.
    rewrite flat_map_concat_map. f_equal. apply map_ext_in. intros f Hf. simpl.
    rewrite map_map. apply map_ext_in. intros x Hx.
    apply (update_class_fields f x Hf Hx). }
  unfold remote_wf. rewrite Hall. simpl. rewrite map_map. simpl.
  split; [exact H1 | split; assumption].
Qed.

Lemma update_step_holds :
  entry_holds (remote_facets r') (fk, ck, cc).
Proof.
  destruct (find_facet_some _ _ _ Hg) as [Hgin _].
  destruct (find_class_some _ _ _ Hc) as [_ Hck].
  exists (F g), (U c). rewrite update_find_facet, Hg.
  rewrite (update_find_class g ck Hgin), Hc.
  simpl. unfold U, update_class. rewrite !N.eqb_refl. simpl. auto.
Qed.

Lemma update_step_frame e :
  entry_pair e <> (fk, ck) ->
  entry_mutation (remote_facets r') e = entry_mutation (remote_facets r) e /\
  (entry_holds (remote_facets r) e -> entry_holds (remote_facets r') e).
Proof.
  destruct e as [[fk' ck'] cc']. simpl. intros Hne.
  rewrite update_find_facet.
  destruct (find_facet (remote_facets r) fk') as [g2 |] eqn:Hg2; simpl;
    [| split; [reflexivity | intros (? & ? & Habs & _); congruence]].
  destruct (find_facet_some _ _ _ Hg2) as [Hg2in Hg2k].
  split.
  - f_equal. apply class_mutation_same; [reflexivity |].
    rewrite (update_find_class g2 ck' Hg2in).
    destruct (find_class (facet_classes g2) ck') as [x |] eqn:Hx; [| reflexivity].
    simpl. f_equal.
    destruct (find_class_some _ _ _ Hx) as [Hxin _].
    apply (update_class_fields g2 x Hg2in Hxin).
  - intros (g3 & x & Hg3 & Hx & Hn & Hs). injection Hg3 as <-.
    exists (F g2), (U x). split; [reflexivity |].
    rewrite (update_find_class g2 ck' Hg2in), Hx.
    destruct (find_class_some _ _ _ Hx) as [Hxin Hxk].
    assert (HU : U x = x).
    { apply (update_class_fields g2 x Hg2in Hxin). intros Heq.
      destruct Hwf as [_ [Hnd _]].
      destruct (find_facet_some _ _ _ Hg) as [Hgin Hgk].
      destruct (find_class_some _ _ _ Hc) as [Hcin Hck].
      destruct (class_uuid_unique _ _ _ _ _ Hnd Hg2in Hxin Hgin Hcin Heq) as [-> ->].
      apply Hne. congruence. }
    simpl. rewrite HU. auto.
Qed.

End UpdateStep.

Lemma append_class_heads fu c f :
  facet_uuid (append_class fu c f) = facet_uuid f /\
  facet_user_key (append_class fu c f) = facet_user_key f.
Proof. unfold append_class. destruct (N.eqb (facet_uuid f) fu); auto. Qed.

Lemma append_class_uuids fu c f u :
  In u (map class_uuid (facet_classes (append_class fu c f))) ->
  In u (map class_uuid (facet_classes f)) \/ (u = class_uuid c /\ facet_uuid f = fu).
Proof.
  unfold append_class. destruct (N.eqb_spec (facet_uuid f) fu) as [Heq | _]; [| auto].
  simpl. rewrite map_app. intros H. apply in_app_or in H as [H | [H | []]]; auto.
Qed.

Lemma append_all_uuids fs fu c u :
  In u (all_class_uuids (map (append_class fu c) fs)) ->
  In u (all_class_uuids fs) \/ (u = class_uuid c /\ In fu (map facet_uuid fs)).
Proof.
  unfold all_class_uuids. intros H. apply in_flat_map in H as [f' [Hf' Hu]].
  apply in_map_iff in Hf' as [f [<- Hf]].
  destruct (append_class_uuids _ _ _ _ Hu) as [H | [-> H]].
  - left. apply in_flat_map. eauto.
  - right. split; [reflexivity |]. rewrite <- H. apply in_map. exact Hf.
Qed.

(** Appending a class with a fresh identifier to the facet with identifier
    [fu] keeps class identifiers unique and below the next identifier. *)
Lemma append_fresh_wf fs fu n k t s :
  NoDup (map facet_uuid fs) -> NoDup (all_class_uuids fs) ->
  Forall (fun u => (u < n)%N) (all_class_uuids fs) ->
  NoDup (all_class_uuids (map (append_class fu (mkClass n k t s)) fs)) /\
  Forall (fun u => (u < N.succ n)%N) (all_class_uuids (map (append_class fu (mkClass n k t s)) fs)).
Proof.
  intros Hf Hnd Hlt. split.
  - induction fs as [| h fs IH]; [constructor |].
    simpl in Hf. inversion Hf as [| ? ? Hh Hf']; subst.
    unfold all_class_uuids in Hnd, Hlt |- *. simpl in Hnd, Hlt |- *.
    fold (all_class_uuids fs) in Hnd, Hlt.
    fold (all_class_uuids (map (append_class fu (mkClass n k t s)) fs)).
    apply Forall_app in Hlt as [Hlth Hltt].
    apply NoDup_app.
    + unfold append_class. destruct (N.eqb (facet_uuid h) fu); simpl;
        [rewrite map_app; apply NoDup_app |].
      * eapply NoDup_app_remove_r. exact Hnd.
      * repeat constructor. intros [].
      * intros a Ha [Heq | []]. subst a. rewrite Forall_forall in Hlth.
        exact (N.lt_irrefl _ (Hlth _ Ha)).
      * eapply NoDup_app_remove_r. exact Hnd.
    + apply IH; auto. eapply NoDup_app_remove_l. exact Hnd.
    + intros a Ha Ht.
      apply append_class_uuids in Ha. apply append_all_uuids in Ht.
      rewrite Forall_forall in Hlth, Hltt.
      destruct Ha as [Ha | [Ha Hhu]], Ht as [Ht | [Ht Htu]]; simpl in Ha, Ht.
      * exact (NoDup_app_disjoint _ _ _ Hnd Ha Ht).
      * subst a. exact (N.lt_irrefl _ (Hlth _ Ha)).
      * subst a. exact (N.lt_irrefl _ (Hltt _ Ht)).
      * apply Hh. rewrite Hhu. exact Htu.
  - apply Forall_forall. intros u Hu.
    apply append_all_uuids in Hu as [Hu | [-> _]].
    + rewrite Forall_forall in Hlt. apply N.lt_lt_succ_r. apply Hlt. exact Hu.
    + apply N.lt_succ_diag_r.
Qed.

Section CreateStep.

Variables (r : Remote) (fk ck : string) (cc : ConfigClass) (g : Facet).
Hypothesis Hwf : remote_wf r.
Hypothesis Hg : find_facet (remote_facets r) fk = Some g.
Hypothesis Hc : find_class (facet_classes g) ck = None.

Let new := mkClass (remote_next r) ck (title cc) (scope cc).
Let A := append_class (facet_uuid g) new.
Let r' := apply_mutation r (ClassCreate (facet_uuid g) ck (title cc) (scope cc)).

Lemma create_find_facet k :
  find_facet (remote_facets r') k = option_map A (find_facet (remote_facets r) k).
Proof.
  unfold find_facet. apply find_map_key. intros f _. unfold A.
  rewrite (proj2 (append_class_heads _ _ f)). reflexivity.
Qed.

Lemma create_same_facet f :
  In f (remote_facets r) -> facet_uuid f = facet_uuid g -> f = g.
Proof.
  intros Hf Hu. destruct Hwf as [H1 _].
  destruct (find_facet_some _ _ _ Hg) as [Hgin _].
  exact (NoDup_map_inj facet_uuid _ _ _ H1 Hf Hgin Hu).
Qed.

Lemma create_find_class f k :
  In f (remote_facets r) -> (facet_user_key f, k) <> (fk, ck) ->
  find_class (facet_classes (A f)) k = find_class (facet_classes f) k.
Proof.
  intros Hf Hne. unfold A, append_class.
  destruct (N.eqb_spec (facet_uuid f) (facet_uuid g)) as [Heq | _]; [| reflexivity].
  simpl. pose proof (create_same_facet f Hf Heq) as ->.
  destruct (find_facet_some _ _ _ Hg) as [_ Hgk].
  unfold find_class. destruct (find _ (facet_classes g)) as [x |] eqn:Hx.
  - apply find_app_some. exact Hx.
  - rewrite find_app_none by exact Hx. simpl.
    destruct (String.eqb_spec ck k) as [<- | _]; [| reflexivity].
    exfalso. apply Hne. rewrite Hgk. reflexivity.
Qed.

Lemma create_step_wf : remote_wf r'.
Proof.
  destruct Hwf as [H1 [H2 H3]].
  destruct (append_fresh_wf _ (facet_uuid g) (remote_next r) ck (title cc) (scope cc)
              H1 H2 H3) as [H2' H3'].
  unfold remote_wf, r'. simpl. split; [| split; assumption].
  rewrite map_map.
  erewrite map_ext; [exact H1 |]. intros f. apply append_class_heads.
Qed.

Lemma create_step_holds :
  entry_holds (remote_facets r') (fk, ck, cc).
Proof.
  exists (A g), new. rewrite create_find_facet, Hg. split; [reflexivity |].
  unfold A, append_class. rewrite N.eqb_refl. simpl.
  unfold find_class in *. rewrite find_app_none by exact Hc. simpl.
  rewrite String.eqb_refl. auto.
Qed.

Lemma create_step_frame e :
  entry_pair e <> (fk, ck) ->
  entry_mutation (remote_facets r') e = entry_mutation (remote_facets r) e /\
  (entry_holds (remote_facets r) e -> entry_holds (remote_facets r') e).
Proof.
  destruct e as [[fk' ck'] cc']. simpl. intros Hne.
  rewrite create_find_facet.
  destruct (find_facet (remote_facets r) fk') as [g2 |] eqn:Hg2; simpl;
    [| split; [reflexivity | intros (? & ? & Habs & _); congruence]].
  destruct (find_facet_some _ _ _ Hg2) as [Hg2in Hg2k].
  assert (Hcl : find_class (facet_classes (A g2)) ck' = find_class (facet_classes g2) ck')
    by (apply create_find_class; [exact Hg2in | rewrite Hg2k; exact Hne]).
  split.
  - f_equal. apply class_mutation_same.
    + apply append_class_heads.
    + rewrite Hcl. reflexivity.
  - intros (g3 & x & Hg3 & Hx & Hn & Hs). injection Hg3 as <-.
    exists (A g2), x. rewrite Hcl. auto.
Qed.

End CreateStep.

Lemma entry_step r e :
  remote_wf r ->
  find_facet (remote_facets r) (fst (fst e)) <> None ->
  let r' := fold_left apply_mutation (entry_mutation (remote_facets r) e) r in
  remote_wf r' /\ entry_holds (remote_facets r') e /\
  (forall k, find_facet (remote_facets r') k = None <-> find_facet (remote_facets r) k = None) /\
  (forall e', entry_pair e' <> entry_pair e ->
     entry_mutation (remote_facets r') e' = entry_mutation (remote_facets r) e' /\
     (entry_holds (remote_facets r) e' -> entry_holds (remote_facets r') e')).
Proof.
  destruct e as [[fk ck] cc]. simpl. intros Hwf Hfk.
  destruct (find_facet (remote_facets r) fk) as [g |] eqn:Hg; [| congruence].
  simpl. unfold class_mutation.
  destruct (find_class (facet_classes g) ck) as [c |] eqn:Hc.
  - split; [eapply update_step_wf; eassumption |].
    split; [eapply update_step_holds; eassumption |].
    split; [| intros e' Hne; eapply update_step_frame; eassumption].
    intros k. erewrite update_find_facet by eassumption.
    destruct (find_facet (remote_facets r) k); simpl; split; congruence.
  - split; [eapply create_step_wf; eassumption |].
    split; [eapply create_step_holds; eassumption |].
    split; [| intros e' Hne; eapply create_step_frame; eassumption].
    intros k. erewrite create_find_facet by eassumption.
    destruct (find_facet (remote_facets r) k); simpl; split; congruence.
Qed.

Lemma flat_map_ext_in {A B} (f g : A -> list B) l :
  (forall x, In x l -> f x = g x) -> flat_map f l = flat_map g l.
Proof.
  induction l as [| x l IH]; intros H; [reflexivity |].
  simpl. rewrite H by (left; reflexivity). f_equal. apply IH.
  intros; apply H; right; assumption.
Qed.

(** Executing the mutations of distinct entries, in order, establishes every
    one of them and leaves the other entries alone. *)
Lemma run_entries es r :
  remote_wf r -> NoDup (map entry_pair es) ->
  Forall (fun e => find_facet (remote_facets r) (fst (fst e)) <> None) es ->
  let r' := fold_left apply_mutation (flat_map (entry_mutation (remote_facets r)) es) r in
  remote_wf r' /\ Forall (entry_holds (remote_facets r')) es /\
  (forall k, find_facet (remote_facets r') k = None <-> find_facet (remote_facets r) k = None) /\
  (forall e', ~ In (entry_pair e') (map entry_pair es) ->
     entry_mutation (remote_facets r') e' = entry_mutation (remote_facets r) e' /\
     (entry_holds (remote_facets r) e' -> entry_holds (remote_facets r') e')).
Proof.
  revert r. induction es as [| e es IH]; intros r Hwf Hnd Hfound.
  - simpl. split; [exact Hwf |]. split; [constructor |]. split; [tauto | auto].
  - simpl. inversion Hnd as [| ? ? He Hnd']; subst.
    inversion Hfound as [| ? ? Hfe Hfes]; subst.
    rewrite fold_left_app.
    destruct (entry_step r e Hwf Hfe) as [Hwf1 [Hh1 [Hk1 Hfr1]]].
    set (r1 := fold_left apply_mutation (entry_mutation (remote_facets r) e) r) in *.
    assert (Hsame : flat_map (entry_mutation (remote_facets r)) es =
                    flat_map (entry_mutation (remote_facets r1)) es).
    { apply flat_map_ext_in. intros e' He'. symmetry. apply Hfr1.
      intros Heq. apply He. rewrite <- Heq. apply in_map. exact He'. }
    rewrite Hsame.
    assert (Hfound1 : Forall (fun e => find_facet (remote_facets r1) (fst (fst e)) <> None) es).
    { apply Forall_forall. intros e' He' Hn. apply Hk1 in Hn.
      rewrite Forall_forall in Hfes. exact (Hfes e' He' Hn). }
    destruct (IH r1 Hwf1 Hnd' Hfound1) as [Hwf2 [Hh2 [Hk2 Hfr2]]].
    split; [exact Hwf2 |]. split.
    + constructor; [| exact Hh2].
      apply (proj2 (Hfr2 e He)). exact Hh1.
    + split.
      * intros k. rewrite Hk2. apply Hk1.
      * intros e' He'. simpl in He'.
        assert (Hne : entry_pair e' <> entry_pair e) by (intros Heq; apply He'; left; auto).
        assert (Hnin : ~ In (entry_pair e') (map entry_pair es)) by (intros Hin; apply He'; right; auto).
        destruct (Hfr1 e' Hne) as [Hm1 Hs1]. destruct (Hfr2 e' Hnin) as [Hm2 Hs2].
        split; [congruence | auto].
Qed.

(** A mutation for an entry that already holds changes nothing, and is an
    update. *)
Lemma entry_holds_noop r e :
  remote_wf r -> entry_holds (remote_facets r) e ->
  fold_left apply_mutation (entry_mutation (remote_facets r) e) r = r /\
  Forall (fun m => is_update m = true) (entry_mutation (remote_facets r) e).
Proof.
  destruct e as [[fk ck] cc]. intros Hwf (g & c & Hg & Hc & Hn & Hs).
  simpl. rewrite Hg. unfold class_mutation. rewrite Hc.
  split; [| repeat constructor].
  destruct (find_facet_some _ _ _ Hg) as [Hgin _].
  destruct (find_class_some _ _ _ Hc) as [Hcin Hck].
  destruct Hwf as [_ [Hnd _]].
  simpl. destruct r as [fs next]. simpl in *. f_equal.
  transitivity (map id fs); [| apply map_id]. apply map_ext_in. intros f Hf.
  rewrite (map_ext_in _ id (facet_classes f)), map_id; [destruct f; reflexivity |].
  intros x Hx. unfold update_class, id.
  destruct (N.eqb_spec (class_uuid x) (class_uuid c)) as [Heq | _]; [| reflexivity].
  destruct (class_uuid_unique _ _ _ _ _ Hnd Hf Hx Hgin Hcin Heq) as [_ ->].
  destruct c as [u k n s]. simpl in *. subst. reflexivity.
Qed.

Lemma run_holding_entries es r :
  remote_wf r -> Forall (entry_holds (remote_facets r)) es ->
  fold_left apply_mutation (flat_map (entry_mutation (remote_facets r)) es) r = r /\
  Forall (fun m => is_update m = true) (flat_map (entry_mutation (remote_facets r)) es).
Proof.
  intros Hwf. induction 1 as [| e es He Hes IH]; [split; [reflexivity | constructor] |].
  simpl. rewrite fold_left_app.
  destruct (entry_holds_noop r e Hwf He) as [-> Hu].
  destruct IH as [-> Hus]. split; [reflexivity |].
  apply Forall_app. auto.
Qed.

Lemma facets_present_iff fs fs' config :
  (forall k, find_facet fs' k = None <-> find_facet fs k = None) ->
  facets_present fs config -> facets_present fs' config.
Proof.
  intros Hk. apply Forall_impl. intros [fk cf] H Hn. apply H. apply Hk. exact Hn.
Qed.

(** Every run on a configuration with a facet key missing remotely ends
    with the error for a missing facet key, or with a transport failure. *)
Lemma run_missing t r config fk :
  In fk (map fst config) -> find_facet (remote_facets r) fk = None ->
  missing_facet_failure (remote_facets r) config (snd (ensure_classes t r config)).
Proof.
  intros Hin Hnone.
  destruct (ensure_classes_error_cases t r config) as [He | [He _]]; [right; exact He |].
  destruct (plan_prefix (remote_facets r) config)
    as [pre [rest [Heq [Hpre [_ Hend]]]]].
  destruct Hend as [[-> _] | [fk0 [cf0 [rest' [-> [H0 Herr]]]]]].
  - exfalso. rewrite Heq, app_nil_r in Hin.
    exact (facets_present_not_in _ _ _ Hpre Hnone Hin).
  - left. exists fk0. split; [| split; [exact H0 |]].
    + rewrite Heq, map_app. apply in_or_app. right. left. reflexivity.
    + rewrite He, Herr. reflexivity.
Qed.

Lemma missing_facet_failure_keys fs fs' config err :
  map facet_user_key fs' = map facet_user_key fs ->
  missing_facet_failure fs' config err -> missing_facet_failure fs config err.
Proof.
  intros Hk [[fk0 [Hin [Hn He]]] | He]; [left | right; exact He].
  exists fk0. split; [exact Hin |]. split; [| exact He].
  apply (find_facet_none_keys fs fs' fk0 Hk). exact Hn.
Qed.

(** C4 (corrected), counterexample: when a facet key of the desired
    configuration has no remote facet, the second run fails with the same
    configuration error as the first; and when the calls of the first run
    fail, the second run issues a create. *)
Lemma ensure_classes_rerun_error :
  let config := [("org_unit_type", [("Afdeling", mkConfigClass "Afdeling" "TEXT")])] in
  snd (ensure_classes reliable_transport
         (fst (fst (ensure_classes reliable_transport test_remote config))) config)
  = Some (ConfigFailure (MissingFacet "org_unit_type")) /\
  snd (fst (ensure_classes reliable_transport
              (fst (fst (ensure_classes (failing_transport (OtherError "ConnectError"))
                                        test_remote test_config)))
              test_config))
  = [ClassUpdate 1%N 2%N "Ansat" "Updated Title" "Updated Scope";
     ClassCreate 3%N "Intern" "New Internal Title" "NEW INTERNAL SCOPE"].
Proof. split; reflexivity. Qed.

(** C4 (corrected): on a remote state whose identifiers are unique (and whose
    next identifier is fresh), with a desired configuration whose
    (facet, class) keys are distinct and whose facet keys all have a remote
    facet, two runs over a reliable transport both complete without error,
    the second run issues only update mutations, and the state after the
    second run is the state after the first.  When a facet key of the
    configuration has no remote facet, both runs, whatever the transport,
    end with the error for a missing facet key or with a transport
    failure. *)
Theorem ensure_classes_idempotent (t1 t2 : Transport) (r : Remote) (config : Config) :
  let r1 := fst (fst (ensure_classes t1 r config)) in
  (reliable t1 -> reliable t2 ->
   remote_wf r ->
   NoDup (config_pairs config) ->
   facets_present (remote_facets r) config ->
   snd (ensure_classes t1 r config) = None /\
   snd (ensure_classes t2 r1 config) = None /\
   Forall (fun m => is_update m = true) (snd (fst (ensure_classes t2 r1 config))) /\
   fst (fst (ensure_classes t2 r1 config)) = r1) /\
  (forall fk, In fk (map fst config) -> find_facet (remote_facets r) fk = None ->
   missing_facet_failure (remote_facets r) config (snd (ensure_classes t1 r config)) /\
   missing_facet_failure (remote_facets r) config (snd (ensure_classes t2 r1 config))).
Proof.
  intros r1. split.
  - intros Ht1 Ht2 Hwf Hnd Hpre.
    assert (Hr1 : r1 = fold_left apply_mutation
                         (flat_map (entry_mutation (remote_facets r)) (config_entries config)) r).
    { unfold r1. rewrite ensure_classes_reliable, plan_present by assumption. reflexivity. }
    destruct (run_entries (config_entries config) r Hwf Hnd
                (facets_present_entries _ _ Hpre)) as [Hwf1 [Hh1 [Hk1 _]]].
    rewrite <- Hr1 in Hwf1, Hh1, Hk1.
    assert (Hpre1 : facets_present (remote_facets r1) config)
      by exact (facets_present_iff _ _ _ Hk1 Hpre).
    destruct (run_holding_entries _ _ Hwf1 Hh1) as [Hfix Hupd].
    rewrite (ensure_classes_reliable t1), (plan_present _ _ Hpre) by exact Ht1.
    split; [reflexivity |].
    rewrite (ensure_classes_reliable t2), (plan_present _ _ Hpre1) by exact Ht2. simpl.
    split; [reflexivity |]. split; [exact Hupd | exact Hfix].
  - intros fk Hin Hnone. split.
    + exact (run_missing t1 r config fk Hin Hnone).
    + apply (missing_facet_failure_keys _ (remote_facets r1)).
      * apply ensure_classes_facet_keys.
      * apply (run_missing t2 r1 config fk Hin).
        apply (find_facet_none_keys (remote_facets r) (remote_facets r1) fk); [| exact Hnone].
        apply ensure_classes_facet_keys.
Qed.

Lemma ensure_classes_idempotent_witness :
  let r1 := fst (fst (ensure_classes reliable_transport test_remote test_config)) in
  (fst (fst (ensure_classes reliable_transport r1 test_config)) = r1 /\
   Forall (fun m => is_update m = true)
          (snd (fst (ensure_classes reliable_transport r1 test_config)))) /\
  missing_facet_failure (remote_facets test_remote)
    [("org_unit_type", [("Afdeling", mkConfigClass "Afdeling" "TEXT")])]
    (snd (ensure_classes (failing_transport (OtherError "ConnectError"))
       (fst (fst (ensure_classes reliable_transport test_remote
                    [("org_unit_type", [("Afdeling", mkConfigClass "Afdeling" "TEXT")])])))
       [("org_unit_type", [("Afdeling", mkConfigClass "Afdeling" "TEXT")])])).
Proof.
  assert (Hwf : remote_wf test_remote).
  { split; [| split]; simpl; repeat constructor; simpl; intuition (try discriminate; lia). }
  split.
  - destruct (proj1 (ensure_classes_idempotent reliable_transport reliable_transport
                       test_remote test_config)
                (conj eq_refl (fun _ => eq_refl)) (conj eq_refl (fun _ => eq_refl)) Hwf
                ltac:(repeat constructor; simpl; intuition discriminate)
                ltac:(repeat constructor; simpl; discriminate))
      as [_ [_ [Hu Hfix]]].
    split; [exact Hfix | exact Hu].
  - exact (proj2 (proj2 (ensure_classes_idempotent reliable_transport
                           (failing_transport (OtherError "ConnectError")) test_remote
                           [("org_unit_type", [("Afdeling", mkConfigClass "Afdeling" "TEXT")])])
                  "org_unit_type" (or_introl eq_refl) eq_refl)).
Defined.

(** * Further properties of [os2mo_init/mo.py] *)

(** ** Dicts with JSON keys *)

Lemma PyKey_eqb_eq a b : PyKey_eqb a b = true <-> a = b.
Proof.
  destruct a as [| x | x], b as [| y | y]; simpl; split; intros H;
    try discriminate; try reflexivity.
  - apply Z.eqb_eq in H. congruence.
  - injection H as ->. apply Z.eqb_refl.
  - apply String.eqb_eq in H. congruence.
  - injection H as ->. apply String.eqb_refl.
Qed.

Lemma py_key_eqb_iff a b :
  py_key_eqb a b = true <-> hash_key a <> None /\ hash_key a = hash_key b.
Proof.
  unfold py_key_eqb.
  destruct (hash_key a) as [x |], (hash_key b) as [y |];
    [rewrite PyKey_eqb_eq | | |]; split; intros H; intuition congruence.
Qed.

Lemma py_key_eqb_false a b :
  py_key_eqb a b = false -> hash_key a = None \/ hash_key a <> hash_key b.
Proof.
  intros H. destruct (hash_key a) as [x |] eqn:Ha; [right | left; reflexivity].
  intros Hab. assert (Ht : py_key_eqb a b = true).
  { apply py_key_eqb_iff. rewrite Ha. split; [discriminate | exact Hab]. }
  congruence.
Qed.

(** Turns every [py_key_eqb] test in the context into facts on [hash_key]. *)
Ltac py_keys :=
  repeat match goal with
  | H : py_key_eqb _ _ = true |- _ => apply py_key_eqb_iff in H as [? ?]
  | H : py_key_eqb _ _ = false |- _ => apply py_key_eqb_false in H
  end.

Lemma py_find_app {V} k (l1 l2 : list (json * V)) :
  py_find k (l1 ++ l2) = match py_find k l1 with Some e => Some e | None => py_find k l2 end.
Proof.
  induction l1 as [| [k' v'] l1 IH]; simpl; [reflexivity |].
  destruct (py_key_eqb k k'); [reflexivity | exact IH].
Qed.

Lemma py_find_value_set {V} k k' (v : V) d :
  option_map snd (py_find k (pydict_set k' v d)) =
  if py_key_eqb k k' then Some v else option_map snd (py_find k d).
Proof.
  induction d as [| [k1 v1] d IH]; simpl; [destruct (py_key_eqb k k'); reflexivity |].
  destruct (py_key_eqb k' k1) eqn:E1; simpl;
    destruct (py_key_eqb k k1) eqn:E2; destruct (py_key_eqb k k') eqn:E3;
    try reflexivity; try exact IH; exfalso; py_keys; intuition congruence.
Qed.

Lemma py_find_key_set {V} k k' (v : V) d :
  option_map fst (py_find k (pydict_set k' v d)) =
  match option_map fst (py_find k d) with
  | Some k0 => Some k0
  | None => if py_key_eqb k k' then Some k' else None
  end.
Proof.
  induction d as [| [k1 v1] d IH]; simpl; [destruct (py_key_eqb k k'); reflexivity |].
  destruct (py_key_eqb k' k1) eqn:E1; simpl.
  - destruct (py_key_eqb k k1) eqn:E2; simpl; [reflexivity |].
    destruct (py_find k d) as [[k2 v2] |]; simpl; [reflexivity |].
    destruct (py_key_eqb k k') eqn:E3; [| reflexivity].
    exfalso. py_keys. intuition congruence.
  - destruct (py_key_eqb k k1); simpl; [reflexivity | exact IH].
Qed.

Lemma hashes_pydict_set {V} h k' (v : V) d :
  In h (map (fun kv => hash_key (fst kv)) (pydict_set k' v d)) <->
  h = hash_key k' \/ In h (map (fun kv => hash_key (fst kv)) d).
Proof.
  induction d as [| [k1 v1] d IH]; simpl.
  - split; [intros [H | []]; left; symmetry; exact H |].
    intros [-> | []]. left; reflexivity.
  - destruct (py_key_eqb k' k1) eqn:E; simpl.
    + apply py_key_eqb_iff in E as [_ Ek]. rewrite Ek.
      split; intros Hh; intuition (subst; auto).
    + rewrite IH. split; intros H; intuition (subst; auto).
Qed.

Lemma nodup_pydict_set {V} k (v : V) d :
  hash_key k <> None ->
  NoDup (map (fun kv => hash_key (fst kv)) d) ->
  NoDup (map (fun kv => hash_key (fst kv)) (pydict_set k v d)).
Proof.
  intros Hk. induction d as [| [k1 v1] d IH]; simpl; intros Hnd.
  - constructor; [simpl; tauto | constructor].
  - destruct (py_key_eqb k k1) eqn:E; simpl; [exact Hnd |].
    inversion Hnd as [| ? ? Hn Hnd']; subst.
    constructor; [| exact (IH Hnd')].
    rewrite hashes_pydict_set. py_keys. intros [H | H]; [intuition congruence | contradiction].
Qed.

Lemma pydict_set_fresh {V} k (v : V) d :
  ~ In (hash_key k) (map (fun kv => hash_key (fst kv)) d) ->
  pydict_set k v d = d ++ [(k, v)].
Proof.
  induction d as [| [k1 v1] d IH]; intros Hn; simpl in *; [reflexivity |].
  destruct (py_key_eqb k k1) eqn:E.
  - exfalso. py_keys. apply Hn. left. congruence.
  - rewrite IH; [reflexivity | tauto].
Qed.

Lemma pydict_comp_from_lookup {A V} (f : A -> Outcome (json * V)) xs acc d :
  pydict_comp_from f xs acc = Return d ->
  exists kvs, Forall2 (fun x kv => f x = Return kv) xs kvs /\
    Forall (fun kv => hash_key (fst kv) <> None) kvs /\
    (NoDup (map (fun kv => hash_key (fst kv)) acc) ->
     NoDup (map (fun kv => hash_key (fst kv)) d)) /\
    (forall h, In h (map (fun kv => hash_key (fst kv)) d) <->
       In h (map (fun kv => hash_key (fst kv)) kvs) \/
       In h (map (fun kv => hash_key (fst kv)) acc)) /\
    (forall k, option_map snd (py_find k d) = option_map snd (py_find k (rev kvs ++ acc))) /\
    (forall k, option_map fst (py_find k d) = option_map fst (py_find k (acc ++ kvs))).
Proof.
  revert acc. induction xs as [| x xs IH]; intros acc H; simpl in H.
  - injection H as <-. exists []. split; [constructor |]. split; [constructor |].
    split; [tauto |]. split; [simpl; tauto |].
    split; [reflexivity | intros k; rewrite app_nil_r; reflexivity].
  - destruct (f x) as [[k1 v1] | e] eqn:Hx; simpl in H; [| discriminate].
    destruct (hash_key k1) as [h1 |] eqn:Hh; [| discriminate].
    destruct (IH _ H) as [kvs [Hf [Hhash [Hnd [Hin [Hval Hkey]]]]]].
    exists ((k1, v1) :: kvs).
    split; [constructor; assumption |].
    split; [constructor; [simpl; congruence | exact Hhash] |].
    split; [intros Hacc; apply Hnd, nodup_pydict_set; [congruence | exact Hacc] |].
    split; [| split].
    + intros h. rewrite Hin, hashes_pydict_set. simpl.
      split; intros Hk; intuition (subst; auto).
    + intros k. rewrite Hval. simpl rev. rewrite <- app_assoc, !py_find_app.
      simpl. destruct (py_find k (rev kvs)) as [e |]; [reflexivity |].
      rewrite py_find_value_set. destruct (py_key_eqb k k1); reflexivity.
    + intros k. rewrite Hkey, !py_find_app. simpl.
      pose proof (py_find_key_set k k1 v1 acc) as Hs.
      destruct (py_find k acc) as [[k0 v0] |];
        destruct (py_find k (pydict_set k1 v1 acc)) as [[k2 v2] |]; simpl in Hs |- *;
        destruct (py_key_eqb k k1); simpl in Hs |- *; congruence.
Qed.

Lemma pydict_comp_from_fresh {A V} (f : A -> Outcome (json * V)) xs kvs acc :
  Forall2 (fun x kv => f x = Return kv) xs kvs ->
  Forall (fun kv => hash_key (fst kv) <> None) kvs ->
  NoDup (map (fun kv => hash_key (fst kv)) (acc ++ kvs)) ->
  pydict_comp_from f xs acc = Return (acc ++ kvs).
Proof.
  intros Hf. revert acc. induction Hf as [| x [k1 v1] xs kvs Hx Hf IH]; intros acc Hh Hnd.
  - rewrite app_nil_r. reflexivity.
  - inversion Hh as [| ? ? Hh1 Hh']; subst. simpl in Hh1.
    simpl. rewrite Hx. simpl.
    destruct (hash_key k1) as [h1 |] eqn:E; [| congruence].
    rewrite pydict_set_fresh.
    + rewrite IH; [rewrite <- app_assoc; reflexivity | exact Hh' |].
      rewrite <- app_assoc. exact Hnd.
    + rewrite map_app in Hnd. simpl in Hnd. apply NoDup_remove_2 in Hnd.
      simpl. rewrite E. rewrite E in Hnd. intros Hin. apply Hnd, in_or_app. left; exact Hin.
Qed.

(** How one step of the comprehension fails: the entry raises, or its key
    is unhashable. *)
Definition entry_fails {A V} (f : A -> Outcome (json * V)) (x : A) (e : Exc) : Prop :=
  f x = Raise e \/ exists kv, f x = Return kv /\ hash_key (fst kv) = None /\ e = TypeError.

Lemma pydict_comp_from_raise {A V} (f : A -> Outcome (json * V)) pre x post acc e :
  Forall (fun y => exists kv, f y = Return kv /\ hash_key (fst kv) <> None) pre ->
  entry_fails f x e ->
  pydict_comp_from f (pre ++ x :: post) acc = Raise e.
Proof.
  intros Hpre. revert acc.
  induction Hpre as [| y pre [[k v] [Hy Hh]] _ IH]; intros acc Hx; simpl.
  - destruct Hx as [Hx | [[k v] [Hx [Hh ->]]]]; rewrite Hx; simpl; [reflexivity |].
    simpl in Hh. rewrite Hh. reflexivity.
  - rewrite Hy. simpl. simpl in Hh. destruct (hash_key k); [| congruence].
    apply IH, Hx.
Qed.

Lemma pydict_comp_from_raise_inv {A V} (f : A -> Outcome (json * V)) xs acc e :
  pydict_comp_from f xs acc = Raise e -> exists x, In x xs /\ entry_fails f x e.
Proof.
  revert acc. induction xs as [| x xs IH]; intros acc H; simpl in H; [discriminate |].
  destruct (f x) as [[k v] | e'] eqn:Hx; simpl in H.
  - destruct (hash_key k) eqn:Hh.
    + destruct (IH _ H) as [y [Hy He]]. exists y. split; [right |]; assumption.
    + injection H as <-. exists x. split; [left; reflexivity |].
      right. exists (k, v). auto.
  - injection H as ->. exists x. split; [left; reflexivity | left; exact Hx].
Qed.

Lemma dict_comp_from_raise {A V} (f : A -> Outcome (string * V)) pre x post acc e :
  Forall (fun y => exists kv, f y = Return kv) pre ->
  f x = Raise e ->
  dict_comp_from f (pre ++ x :: post) acc = Raise e.
Proof.
  intros Hpre. revert acc. induction Hpre as [| y pre [kv Hy] _ IH]; intros acc Hx; simpl.
  - rewrite Hx. reflexivity.
  - rewrite Hy. simpl. apply IH, Hx.
Qed.

Lemma map_py_raise {A B} (f : A -> Outcome B) pre x post e :
  Forall (fun y => exists b, f y = Return b) pre ->
  f x = Raise e ->
  map_py f (pre ++ x :: post) = Raise e.
Proof.
  intros Hpre Hx. induction Hpre as [| y pre [b Hy] _ IH]; simpl.
  - rewrite Hx. reflexivity.
  - rewrite Hy. simpl. rewrite IH. reflexivity.
Qed.

Lemma map_py_app_ok {A B} (f : A -> Outcome B) l1 ys l2 :
  Forall2 (fun x y => f x = Return y) l1 ys ->
  map_py f (l1 ++ l2) = let* zs := map_py f l2 in Return (ys ++ zs).
Proof.
  intros H. induction H as [| x y l1 ys Hx _ IH]; simpl.
  - destruct (map_py f l2); reflexivity.
  - rewrite Hx. simpl. rewrite IH. destruct (map_py f l2); reflexivity.
Qed.

Lemma combine_app_eq {A B} (l1 l2 : list A) (m1 m2 : list B) :
  length l1 = length m1 ->
  combine (l1 ++ l2) (m1 ++ m2) = combine l1 m1 ++ combine l2 m2.
Proof.
  revert m1. induction l1 as [| a l1 IH]; intros [| b m1] Hlen; simpl in *;
    try discriminate; [reflexivity |].
  rewrite IH by lia. reflexivity.
Qed.

(** ** The user-key dicts of [get_facets] and [get_classes] *)

Lemma class_dict_entries parse_uuid body :
  class_dict parse_uuid body
  = let* items := iter_json body in pydict_comp (key_uuid_entry parse_uuid) items.
Proof. reflexivity. Qed.

Lemma get_facets_class_dict parse_uuid get_org_facets_json o :
  get_facets parse_uuid get_org_facets_json o
  = let* body := get_org_facets_json o in class_dict parse_uuid body.
Proof. reflexivity. Qed.

Lemma user_key_dict_cases parse_uuid get_org_facets_json o body (r : Outcome (list (json * UUID))) :
  (class_dict parse_uuid body = r \/
   (get_org_facets_json o = Return body /\
    get_facets parse_uuid get_org_facets_json o = r)) ->
  class_dict parse_uuid body = r.
Proof.
  intros [H | [Hb H]]; [exact H |].
  rewrite get_facets_class_dict, Hb in H. exact H.
Qed.

Lemma key_uuid_entry_raise parse_uuid x e :
  key_uuid_entry parse_uuid x = Raise e ->
  e = TypeError \/ e = ValueError \/ e = AttributeError \/
  e = KeyError "user_key" \/ e = KeyError "uuid".
Proof.
  unfold key_uuid_entry, subscript, UUID_of.
  destruct x as [| | | | | kvs]; simpl; intros H; try (injection H as <-; tauto).
  destruct (assoc "user_key" kvs) as [k |]; simpl in H; [| injection H as <-; tauto].
  destruct (assoc "uuid" kvs) as [[| | | s' | |] |]; simpl in H;
    try (injection H as <-; tauto).
  destruct (parse_uuid s'); simpl in H; [discriminate | injection H as <-; tauto].
Qed.

(** ** The facet fetches of [mo.get_classes] *)

Section GetClassesErrors.

Variable parse_uuid : string -> option UUID.
Variable get_facet_json : UUID -> Outcome json.

Let gcf := get_classes_for_facet get_facet_json.

Lemma gathered_split (pre post : list (string * UUID)) k0 u0 items0 :
  Forall (fun p => exists items, gcf (snd p) = Return items) (pre ++ post) ->
  gcf u0 = Return items0 ->
  exists gs_pre gs_post,
    Forall2 (fun u g => gcf u = Return g) (map snd pre) gs_pre /\
    map_py gcf (map snd (pre ++ (k0, u0) :: post)) = Return (gs_pre ++ items0 :: gs_post).
Proof.
  intros Hall Hu0. apply Forall_app in Hall as [Hpre Hpost].
  destruct (map_py_total gcf (map snd pre)) as [gs_pre Hgp].
  { intros u Hu. apply in_map_iff in Hu as [[k u'] [<- Hin]].
    rewrite Forall_forall in Hpre. exact (Hpre _ Hin). }
  destruct (map_py_total gcf (map snd post)) as [gs_post Hgq].
  { intros u Hu. apply in_map_iff in Hu as [[k u'] [<- Hin]].
    rewrite Forall_forall in Hpost. exact (Hpost _ Hin). }
  apply map_py_forall2 in Hgp.
  exists gs_pre, gs_post. split; [exact Hgp |].
  rewrite map_app. simpl. rewrite (map_py_app_ok _ _ _ _ Hgp). simpl.
  rewrite Hu0. simpl. rewrite Hgq. reflexivity.
Qed.

End GetClassesErrors.

(** X1: the dict built by [{x["user_key"]: UUID(x["uuid"]) for x in ...}],
    both in [get_facets] and for each facet in [get_classes], holds one entry
    per distinct user key (user keys compared as Python dict keys, so that
    [True] and [1] are one key), for exactly the user keys of the listed
    items; each entry keeps the key object of the first listed item with that
    key and the UUID of the last one. *)
Theorem user_key_dict_last_wins (parse_uuid : string -> option UUID)
    (get_org_facets_json : UUID -> Outcome json) (o : UUID) (body : json)
    (d : list (json * UUID)) :
  (class_dict parse_uuid body = Return d \/
   (get_org_facets_json o = Return body /\
    get_facets parse_uuid get_org_facets_json o = Return d)) ->
  exists items kvs, iter_json body = Return items /\
    Forall2 (fun x kv => key_uuid_entry parse_uuid x = Return kv) items kvs /\
    Forall (fun kv => hash_key (fst kv) <> None) kvs /\
    NoDup (map (fun kv => hash_key (fst kv)) d) /\
    (forall h, In h (map (fun kv => hash_key (fst kv)) d) <->
       In h (map (fun kv => hash_key (fst kv)) kvs)) /\
    (forall k, option_map snd (py_find k d) = option_map snd (py_find k (rev kvs))) /\
    (forall k, option_map fst (py_find k d) = option_map fst (py_find k kvs)).
Proof.
  intros H. apply user_key_dict_cases in H.
  rewrite class_dict_entries in H.
  destruct (iter_json body) as [items | e]; simpl in H; [| discriminate].
  destruct (pydict_comp_from_lookup _ _ _ _ H) as [kvs [Hf [Hh [Hnd [Hin [Hval Hkey]]]]]].
  exists items, kvs. split; [reflexivity |]. split; [exact Hf |]. split; [exact Hh |].
  split; [apply Hnd; constructor |].
  split; [| split].
  - intros h. rewrite Hin. simpl. tauto.
  - intros k. rewrite Hval, app_nil_r. reflexivity.
  - exact Hkey.
Qed.

Lemma user_key_dict_last_wins_witness :
  get_facets parse_test (fun _ => Return facets_body_dup_test) 0%N
  = Return [(JStr "engagement_type", 2%N); (JStr "visibility", 3%N)] /\
  option_map snd (py_find (JStr "engagement_type")
                    [(JStr "engagement_type", 2%N); (JStr "visibility", 3%N)])
  = option_map snd (py_find (JStr "engagement_type")
      (rev [(JStr "engagement_type", 1%N); (JStr "visibility", 3%N);
            (JStr "engagement_type", 2%N)])).
Proof.
  split; [reflexivity |].
  destruct (user_key_dict_last_wins parse_test (fun _ => Return facets_body_dup_test)
              0%N facets_body_dup_test
              [(JStr "engagement_type", 2%N); (JStr "visibility", 3%N)]
              (or_intror (conj eq_refl eq_refl)))
    as [items [kvs [Hit [Hf [_ [_ [_ [Hval _]]]]]]]].
  simpl in Hit. injection Hit as <-.
  repeat (match goal with
          | H : Forall2 _ (_ :: _) _ |- _ => inversion H; subst; clear H
          | H : Forall2 _ [] _ |- _ => inversion H; subst; clear H
          end).
  repeat (match goal with
          | H : key_uuid_entry _ _ = Return _ |- _ => vm_compute in H; injection H as <-
          end).
  exact (Hval (JStr "engagement_type")).
Defined.

(** X2: when every listed item yields an entry, the user keys are hashable
    and pairwise distinct as dict keys, the user-key dict (of [get_facets],
    and of each facet in [get_classes]) is exactly the listed entries, in
    listing order. *)
Theorem user_key_dict_listing_order (parse_uuid : string -> option UUID)
    (body : json) (items : list json) (kvs : list (json * UUID)) :
  iter_json body = Return items ->
  Forall2 (fun x kv => key_uuid_entry parse_uuid x = Return kv) items kvs ->
  Forall (fun kv => hash_key (fst kv) <> None) kvs ->
  NoDup (map (fun kv => hash_key (fst kv)) kvs) ->
  class_dict parse_uuid body = Return kvs /\
  (forall get_org_facets_json o, get_org_facets_json o = Return body ->
     get_facets parse_uuid get_org_facets_json o = Return kvs).
Proof.
  intros Hit Hf Hh Hnd.
  assert (Hc : class_dict parse_uuid body = Return kvs).
  { rewrite class_dict_entries, Hit. simpl.
    exact (pydict_comp_from_fresh _ _ _ [] Hf Hh Hnd). }
  split; [exact Hc |].
  intros g o Hg. rewrite get_facets_class_dict, Hg. exact Hc.
Qed.

Lemma user_key_dict_listing_order_witness :
  get_facets parse_test (fun _ => Return facets_body_test) 0%N
  = Return [(JStr "engagement_type", 1%N); (JStr "visibility", 3%N)].
Proof.
  apply (proj2 (user_key_dict_listing_order parse_test facets_body_test
                  [JObj [("uuid", JStr "182d"); ("user_key", JStr "engagement_type")];
                   JObj [("uuid", JStr "2cc2"); ("user_key", JStr "visibility")]]
                  [(JStr "engagement_type", 1%N); (JStr "visibility", 3%N)]
                  eq_refl
                  ltac:(repeat constructor)
                  ltac:(repeat constructor; simpl; discriminate)
                  ltac:(repeat constructor; simpl; intuition discriminate))).
  reflexivity.
Defined.

(** X3: the user-key dict (of [get_facets], and of each facet in
    [get_classes]) raises the exception of the first listed item that fails:
    either building its entry raises, or its user key is unhashable
    ([TypeError], raised once its UUID has been built); the items after it
    are not looked at. *)
Theorem user_key_dict_first_error (parse_uuid : string -> option UUID)
    (body : json) (pre : list json) (x : json) (post : list json) (e : Exc) :
  iter_json body = Return (pre ++ x :: post) ->
  Forall (fun y => exists kv, key_uuid_entry parse_uuid y = Return kv /\
                              hash_key (fst kv) <> None) pre ->
  (key_uuid_entry parse_uuid x = Raise e \/
   exists kv, key_uuid_entry parse_uuid x = Return kv /\ hash_key (fst kv) = None /\
              e = TypeError) ->
  class_dict parse_uuid body = Raise e /\
  (forall get_org_facets_json o, get_org_facets_json o = Return body ->
     get_facets parse_uuid get_org_facets_json o = Raise e).
Proof.
  intros Hit Hpre Hx.
  assert (Hc : class_dict parse_uuid body = Raise e).
  { rewrite class_dict_entries, Hit. simpl.
    exact (pydict_comp_from_raise _ _ _ _ [] _ Hpre Hx). }
  split; [exact Hc |].
  intros g o Hg. rewrite get_facets_class_dict, Hg. exact Hc.
Qed.

Lemma user_key_dict_first_error_witness :
  get_facets parse_test (fun _ => Return facets_body_bad_test) 0%N = Raise (KeyError "uuid") /\
  class_dict parse_test
    (JArr [JObj [("user_key", JNum 5); ("uuid", JStr "182d")];
           JObj [("user_key", JArr []); ("uuid", JStr "2cc2")];
           JNull])
  = Raise TypeError.
Proof.
  split.
  - apply (proj2 (user_key_dict_first_error parse_test facets_body_bad_test
                    [JObj [("uuid", JStr "182d"); ("user_key", JStr "engagement_type")]]
                    (JObj [("user_key", JStr "visibility")]) [JNull] (KeyError "uuid")
                    eq_refl
                    ltac:(repeat constructor; eexists; split; [reflexivity | discriminate])
                    (or_introl eq_refl))).
    reflexivity.
  - apply (proj1 (user_key_dict_first_error parse_test
                    (JArr [JObj [("user_key", JNum 5); ("uuid", JStr "182d")];
                           JObj [("user_key", JArr []); ("uuid", JStr "2cc2")];
                           JNull])
                    [JObj [("user_key", JNum 5); ("uuid", JStr "182d")]]
                    (JObj [("user_key", JArr []); ("uuid", JStr "2cc2")]) [JNull] TypeError
                    eq_refl
                    ltac:(repeat constructor; eexists; split; [reflexivity | discriminate])
                    (or_intror (ex_intro _ (JArr [], 3%N) (conj eq_refl (conj eq_refl eq_refl)))))).
Defined.

(** X4: the user-key dict (of [get_facets], once the response is decoded,
    and of each facet in [get_classes]) raises nothing but [TypeError],
    [ValueError], [AttributeError], [KeyError("user_key")] or
    [KeyError("uuid")]. *)
Theorem user_key_dict_exceptions (parse_uuid : string -> option UUID)
    (get_org_facets_json : UUID -> Outcome json) (o : UUID) (body : json) (e : Exc) :
  (class_dict parse_uuid body = Raise e \/
   (get_org_facets_json o = Return body /\
    get_facets parse_uuid get_org_facets_json o = Raise e)) ->
  e = TypeError \/ e = ValueError \/ e = AttributeError \/
  e = KeyError "user_key" \/ e = KeyError "uuid".
Proof.
  intros H. apply user_key_dict_cases in H.
  rewrite class_dict_entries in H.
  destruct (iter_json body) as [items | e'] eqn:Hit; simpl in H.
  - destruct (pydict_comp_from_raise_inv _ _ _ _ H) as [x [_ [Hx | [kv [_ [_ ->]]]]]].
    + exact (key_uuid_entry_raise _ _ _ Hx).
    + left. reflexivity.
  - injection H as <-. left.
    destruct body; simpl in Hit; congruence.
Qed.

Lemma user_key_dict_exceptions_witness :
  get_facets parse_test
    (fun _ => Return (JArr [JObj [("uuid", JNum 7); ("user_key", JStr "a")]])) 0%N
  = Raise AttributeError /\
  (AttributeError = TypeError \/ AttributeError = ValueError \/
   AttributeError = AttributeError \/
   AttributeError = KeyError "user_key" \/ AttributeError = KeyError "uuid").
Proof.
  split; [reflexivity |].
  exact (user_key_dict_exceptions parse_test
           (fun _ => Return (JArr [JObj [("uuid", JNum 7); ("user_key", JStr "a")]])) 0%N
           (JArr [JObj [("uuid", JNum 7); ("user_key", JStr "a")]]) AttributeError
           (or_intror (conj eq_refl eq_refl))).
Defined.

(** X5: [get_root_org] returns a UUID only when the query succeeded and the
    result's ["org"]["uuid"] is a string that parses as that UUID. *)
Theorem get_root_org_some_iff (parse_uuid : string -> option UUID)
    (execute : Outcome json) (u : UUID) :
  get_root_org parse_uuid execute = Return (Some u) <->
  exists result org s, execute = Return result /\
    subscript result "org" = Return org /\
    subscript org "uuid" = Return (JStr s) /\ parse_uuid s = Some u.
Proof.
  split.
  - destruct execute as [result | e]; simpl.
    + destruct (subscript result "org") as [org |] eqn:H1; simpl; [| discriminate].
      destruct (subscript org "uuid") as [j |] eqn:H2; simpl; [| discriminate].
      destruct j as [| | | s | |]; simpl; try discriminate.
      destruct (parse_uuid s) as [u' |] eqn:H3; simpl; [| discriminate].
      intros H; injection H as ->. exists result, org, s. auto.
    + destruct e as [[[| e0 rest] |] | | | | | |]; try discriminate.
      destruct (String.eqb (message e0) E_ORG_UNCONFIGURED); discriminate.
  - intros [result [org [s [-> [H1 [H2 H3]]]]]]. simpl.
    rewrite H1. simpl. rewrite H2. simpl. rewrite H3. reflexivity.
Qed.

(** X6: [get_root_org] returns [None] only when the query raised a
    [TransportQueryError] whose error list is non-empty and whose first
    entry has the message [ErrorCodes.E_ORG_UNCONFIGURED]; a successful
    query never yields [None]. *)
Theorem get_root_org_none_iff (parse_uuid : string -> option UUID)
    (execute : Outcome json) :
  get_root_org parse_uuid execute = Return None <->
  exists e0 rest, execute = Raise (TransportQueryError (Some (e0 :: rest))) /\
    message e0 = E_ORG_UNCONFIGURED.
Proof.
  split.
  - destruct execute as [result | e]; simpl.
    + destruct (subscript result "org") as [org |]; simpl; [| discriminate].
      destruct (subscript org "uuid") as [j |]; simpl; [| discriminate].
      destruct j as [| | | s | |]; simpl; try discriminate.
      destruct (parse_uuid s); discriminate.
    + destruct e as [[[| e0 rest] |] | | | | | |]; try discriminate.
      destruct (String.eqb_spec (message e0) E_ORG_UNCONFIGURED) as [He | He];
        [| discriminate].
      intros _. exists e0, rest. auto.
  - intros [e0 [rest [-> He]]]. simpl. rewrite He, String.eqb_refl. reflexivity.
Qed.

(** X8: in [mo.get_classes], when the request for one facet raises and the
    requests for all other facets succeed, [asyncio.gather] re-raises that
    exception and [get_classes] raises it. *)
Theorem get_classes_fetch_error (parse_uuid : string -> option UUID)
    (get_facet_json : UUID -> Outcome json)
    (pre post : list (string * UUID)) (k0 : string) (u0 : UUID) (e : Exc) :
  Forall (fun p => exists items,
            get_classes_for_facet get_facet_json (snd p) = Return items) (pre ++ post) ->
  get_classes_for_facet get_facet_json u0 = Raise e ->
  MO.get_classes parse_uuid get_facet_json (pre ++ (k0, u0) :: post) = Raise e.
Proof.
  intros Hall Hu0. apply Forall_app in Hall as [Hpre _].
  unfold MO.get_classes. rewrite map_app. simpl.
  rewrite (map_py_raise _ (map snd pre) u0 (map snd post) e); [reflexivity | | exact Hu0].
  apply Forall_map. exact Hpre.
Qed.

Lemma get_classes_fetch_error_witness :
  MO.get_classes parse_test facet_json_fail_test
    [("engagement_type", 1%N); ("visibility", 3%N)]
  = Raise (OtherError "HTTPStatusError").
Proof.
  apply (get_classes_fetch_error parse_test facet_json_fail_test
           [("engagement_type", 1%N)] [] "visibility" 3%N (OtherError "HTTPStatusError")).
  - repeat constructor. eexists. reflexivity.
  - reflexivity.
Defined.

(** X9: in [mo.get_classes], when every facet request succeeds, the
    first facet (in the order of the input dict) whose class list does not
    give a class dict makes [get_classes] raise that exception. *)
Theorem get_classes_class_dict_error (parse_uuid : string -> option UUID)
    (get_facet_json : UUID -> Outcome json)
    (pre post : list (string * UUID)) (k0 : string) (u0 : UUID)
    (items0 : json) (e : Exc) :
  Forall (fun p => exists items m,
            get_classes_for_facet get_facet_json (snd p) = Return items /\
            class_dict parse_uuid items = Return m) pre ->
  Forall (fun p => exists items,
            get_classes_for_facet get_facet_json (snd p) = Return items) post ->
  get_classes_for_facet get_facet_json u0 = Return items0 ->
  class_dict parse_uuid items0 = Raise e ->
  MO.get_classes parse_uuid get_facet_json (pre ++ (k0, u0) :: post) = Raise e.
Proof.
  intros Hpre Hpost Hu0 He.
  destruct (gathered_split get_facet_json pre post k0 u0 items0) as [gs_pre [gs_post [Hgp Hg]]].
  { apply Forall_app. split; [| exact Hpost].
    eapply Forall_impl; [| exact Hpre]. intros p [items [m [Hi _]]]. eauto. }
  { exact Hu0. }
  unfold MO.get_classes. rewrite Hg. simpl.
  rewrite map_app. simpl.
  rewrite combine_app_eq
    by (rewrite length_map; apply Forall2_length in Hgp; rewrite length_map in Hgp; exact Hgp).
  simpl. apply dict_comp_from_raise.
  - apply Forall_forall. intros [k g] Hin.
    destruct (in_combine_gathered _ pre gs_pre k g Hgp Hin) as [u [Hu Hgu]].
    rewrite Forall_forall in Hpre.
    destruct (Hpre _ Hu) as [items [m [Hi Hm]]]. simpl in Hi.
    rewrite Hgu in Hi. injection Hi as <-. rewrite Hm. simpl. eauto.
  - rewrite He. reflexivity.
Qed.

Lemma get_classes_class_dict_error_witness :
  MO.get_classes parse_test facet_json_bad_class_test
    [("engagement_type", 1%N); ("visibility", 3%N)]
  = Raise (KeyError "uuid").
Proof.
  apply (get_classes_class_dict_error parse_test facet_json_bad_class_test
           [("engagement_type", 1%N)] [] "visibility" 3%N
           (JArr [JObj [("user_key", JStr "Ekstern")]]) (KeyError "uuid")).
  - repeat constructor. do 2 eexists. split; reflexivity.
  - constructor.
  - reflexivity.
  - reflexivity.
Defined.

(** X10: when the decoded listing is not a JSON list, the user-key dict (of
    [get_facets], and of each facet in [get_classes]) is empty for an empty
    JSON object or an empty string (iterating them yields nothing), and
    raises [TypeError] otherwise: a non-empty object or string is iterated by
    keys or characters, and subscripting a string with ["user_key"] raises
    [TypeError]. *)
Theorem user_key_dict_non_list (parse_uuid : string -> option UUID) (body : json) :
  (forall xs, body <> JArr xs) ->
  let r := match body with
           | JObj [] | JStr EmptyString => Return []
           | _ => Raise TypeError
           end in
  class_dict parse_uuid body = r /\
  (forall get_org_facets_json o, get_org_facets_json o = Return body ->
     get_facets parse_uuid get_org_facets_json o = r).
Proof.
  intros Hl r.
  assert (Hc : class_dict parse_uuid body = r).
  { unfold r. destruct body as [| | | [| c s] | xs | [| kv kvs]]; try reflexivity.
    exfalso. exact (Hl xs eq_refl). }
  split; [exact Hc |].
  intros g o Hg. rewrite get_facets_class_dict, Hg. exact Hc.
Qed.

Lemma user_key_dict_non_list_witness :
  get_facets parse_test
    (fun _ => Return (JObj [("error", JStr "Unauthorized")])) 0%N = Raise TypeError.
Proof.
  apply (proj2 (user_key_dict_non_list parse_test (JObj [("error", JStr "Unauthorized")])
                  ltac:(discriminate))).
  reflexivity.
Defined.
